(** * Firmware artifact extraction: byte-run scanners, pattern matchers,
      key/value extraction and the NVRAM blob verdict

    A shallow embedding of
      - [tuya_binary_deep_scan.py]: [extract_ascii_strings],
        [extract_utf16le_strings], [uniq], the [find_*] classifiers and the
        category mapping of [analyze_binary];
      - [tuya_nvram_blob_detector.py]: [KEYWORDS], the two key/value
        patterns and [scan_blob];
      - [tuya_rts3903_static_recon.py]: [uniq_preserve] and
        [analyze_strings] with its patterns.

    Python [bytes] are lists of [byte]; Python [str] values are [string]s,
    whose characters have code points below 256 (all that the scanners
    produce from bytes); Python integers are [Z]; a [set] is a [gset] and
    the [hits] dictionary is a [gmap] from field names to values.  File
    access, the protobuf tag score and the PEM marker of [analyze_binary]
    are left out. *)

From Stdlib Require Import ZArith NArith Lia List Permutation Ascii String.
From Stdlib.Strings Require Import Byte.
From stdpp Require Import gmap strings list.

Open Scope Z_scope.

#[local] Set Warnings "-clear-no-such-hyp".

(** ** Bytes and characters *)

#[global] Instance byte_eq_dec : EqDecision byte := Byte.byte_eq_dec.

#[global] Instance byte_countable : Countable byte :=
  inj_countable' Byte.to_N (fun n => default Byte.x00 (Byte.of_N n))
    (fun b => f_equal (default Byte.x00) (Byte.of_to_N b)).

(** [chr(b)] for a byte value [b]. *)
Definition chr (b : byte) : ascii := ascii_of_byte b.

(** ["".join(cur)] for a list of one-character strings. *)
Definition join (cur : list ascii) : string := string_of_list_ascii cur.

(** A bytes literal [b"..."]. *)
Definition bytes_lit (s : string) : list byte := list_byte_of_string s.

(** [needle in hay] for two sequences (Python's substring test on [bytes]
    and on [str]). *)
Fixpoint starts_with `{EqDecision A} (needle hay : list A) : bool :=
  match needle, hay with
  | [], _ => true
  | _ :: _, [] => false
  | x :: n', y :: h' => bool_decide (x = y) && starts_with n' h'
  end.

Fixpoint contains `{EqDecision A} (needle hay : list A) : bool :=
  starts_with needle hay ||
  match hay with
  | [] => false
  | _ :: h' => contains needle h'
  end.

Definition str_contains (needle s : string) : bool :=
  contains (list_ascii_of_string needle) (list_ascii_of_string s).

(** ** ByteRunScanner ([tuya_binary_deep_scan.py], lines 15-44) *)

(** The loop state of both scanners: the list [out] of completed strings and
    the accumulator [cur]. *)
Definition scan_state : Type := list string * list ascii.

(** [if len(cur) >= min_len: out.append("".join(cur))]. *)
Definition flush (min_len : Z) (st : scan_state) : list string :=
  if min_len <=? Z.of_nat (length st.2) then st.1 ++ [join st.2] else st.1.

(** [32 <= b < 127]. *)
Definition printable (b : byte) : bool :=
  ((32 <=? Byte.to_N b) && (Byte.to_N b <? 127))%N.

(** One iteration of the loop of [extract_ascii_strings] (lines 18-24). *)
Definition ascii_step (min_len : Z) (st : scan_state) (b : byte) : scan_state :=
  if printable b then (st.1, st.2 ++ [chr b])
  else (flush min_len st, []).

Definition extract_ascii_strings (data : list byte) (min_len : Z) : list string :=
  flush min_len (fold_left (ascii_step min_len) data ([], [])).

(** The pairs [(data[i], data[i+1])] for [i in range(0, len(data) - 1, 2)]:
    a final unpaired byte is not visited. *)
Fixpoint byte_pairs (data : list byte) : list (byte * byte) :=
  match data with
  | lo :: hi :: rest => (lo, hi) :: byte_pairs rest
  | _ => []
  end.

(** One iteration of the loop of [extract_utf16le_strings] (lines 34-41). *)
Definition utf16_step (min_len : Z) (st : scan_state) (p : byte * byte) : scan_state :=
  let '(lo, hi) := p in
  if bool_decide (hi = Byte.x00) && printable lo then (st.1, st.2 ++ [chr lo])
  else (flush min_len st, []).

Definition extract_utf16le_strings (data : list byte) (min_len : Z) : list string :=
  flush min_len (fold_left (utf16_step min_len) (byte_pairs data) ([], [])).

(** ** Order-preserving deduplication *)

(** The loop of [uniq] ([tuya_binary_deep_scan.py], lines 47-54) with its
    [seen] set and its result list. *)
Definition uniq_step (st : gset string * list string) (s : string)
  : gset string * list string :=
  if bool_decide (s ∈ st.1) then st else ({[ s ]} ∪ st.1, st.2 ++ [s]).

Definition uniq (seq : list string) : list string :=
  (fold_left uniq_step seq (∅, [])).2.

(** [uniq_preserve] of [tuya_rts3903_static_recon.py] (lines 40-47) is the
    same loop under another name. *)
Definition uniq_preserve (seq : list string) : list string :=
  (fold_left uniq_step seq (∅, [])).2.

(** ** A backtracking matcher for the [re] patterns of the scripts

    The patterns of the scripts use character classes, concatenation,
    alternation, greedy counted repetition, capturing groups and the word
    boundary [\b].  [m r s] lists, in the order in which Python's
    backtracking matcher tries them, all the states in which a match of [r]
    started in state [s] can end; the first element is the match [re]
    reports.  A state is a position in the input together with the group
    spans recorded so far (newest first).  Classes are predicates on code
    points, so the same patterns run on [bytes] and on [str]. *)

Module Re.

Inductive regex : Type :=
| Eps
| Cls (p : N -> bool)
| Seq (r1 r2 : regex)
| Alt (r1 r2 : regex)
| Rep (lo : nat) (hi : option nat) (r : regex)
| Grp (g : nat) (r : regex)
| Bnd.

Definition caps : Type := list (nat * (nat * nat)).
Definition mstate : Type := nat * caps.

(** Greedy repetition of a matcher [f], at least [lo] and at most [hi] times:
    one more iteration is tried before stopping. *)
Fixpoint rep (f : mstate -> list mstate) (hi lo : nat) (s : mstate)
  : list mstate :=
  match hi with
  | O => match lo with O => [s] | S _ => [] end
  | S hi' =>
      flat_map (rep f hi' (Nat.pred lo)) (f s)
      ++ match lo with O => [s] | S _ => [] end
  end.

Record hit : Type := { h_start : nat; h_end : nat; h_caps : caps }.

Section Matcher.
Context {A : Type}.
(** [code] gives the code point of an input element, [word] is the class
    [\w] used by [\b]. *)
Variable code : A -> N.
Variable word : N -> bool.
Variable inp : list A.

(** The element at position [i] exists and belongs to the class [P]. *)
Definition class_at (P : N -> bool) (i : nat) : bool :=
  match inp !! i with
  | Some c => P (code c)
  | None => false
  end.

Definition word_at (i : nat) : bool := class_at word i.

(** [\b]: exactly one of the characters before and after the position is
    a word character (the ends of the input count as non-word). *)
Definition at_boundary (p : nat) : bool :=
  xorb (match p with O => false | S q => word_at q end) (word_at p).

(** An unbounded repetition [{lo,}] is run with the number of remaining
    input elements as its bound: every repeated body in the scripts
    consumes at least one element per iteration. *)
Fixpoint m (r : regex) (s : mstate) : list mstate :=
  match r with
  | Eps => [s]
  | Cls p => if class_at p s.1 then [(S s.1, s.2)] else []
  | Seq r1 r2 => flat_map (m r2) (m r1 s)
  | Alt r1 r2 => m r1 s ++ m r2 s
  | Rep lo hi r' =>
      rep (m r') (match hi with Some h => h | None => (length inp - s.1)%nat end) lo s
  | Grp g r' => map (fun s' : mstate => (s'.1, (g, (s.1, s'.1)) :: s'.2)) (m r' s)
  | Bnd => if at_boundary s.1 then [s] else []
  end.

(** The scan of [finditer]/[findall]: positions are visited from left to
    right, [n] counts the positions still to visit, and positions before
    [resume] lie inside the previous match.  None of the patterns of the
    scripts matches the empty string; after an empty match the scan would
    resume one position further. *)
Fixpoint scan (r : regex) (n p resume : nat) : list hit :=
  match n with
  | O => []
  | S n' =>
      if (p <? resume)%nat then scan r n' (S p) resume
      else match m r (p, []) with
           | (e, c) :: _ =>
               {| h_start := p; h_end := e; h_caps := c |}
               :: scan r n' (S p) (Nat.max e (S p))
           | [] => scan r n' (S p) resume
           end
  end.

Definition finditer (r : regex) : list hit := scan r (S (length inp)) O O.

Definition slice (b e : nat) : list A := take (e - b) (drop b inp).

(** [m.group(0)]. *)
Definition group0 (h : hit) : list A := slice (h_start h) (h_end h).

(** [m.group(g)], with the empty string for a group that did not take
    part in the match, as [findall] reports it. *)
Definition group (g : nat) (h : hit) : list A :=
  match list_find (fun c : nat * (nat * nat) => c.1 = g) (h_caps h) with
  | Some (_, (_, (b, e))) => slice b e
  | None => []
  end.

(** [re.search(...)] used as a truth value. *)
Definition search (r : regex) : bool :=
  match finditer r with [] => false | _ :: _ => true end.

(** [findall] for a pattern without groups, with one group, with two. *)
Definition findall0 (r : regex) : list (list A) := map group0 (finditer r).
Definition findall1 (r : regex) : list (list A) := map (group 1) (finditer r).
Definition findall2 (r : regex) : list (list A * list A) :=
  map (fun h => (group 1 h, group 2 h)) (finditer r).
End Matcher.

(** *** Building blocks for patterns *)

Definition cp (c : ascii) : N := N_of_ascii c.

(** The double quote character. *)
Definition dquote : ascii := "034"%char.

(** A literal character. *)
Definition chr_is (c : ascii) : N -> bool := N.eqb (cp c).
(** A range [a-b]. *)
Definition in_rng (a b : ascii) (n : N) : bool := ((cp a <=? n) && (n <=? cp b))%N.
(** A class [[...]] as the union of its items, and a negated class [[^...]]. *)
Definition any_of (items : list (N -> bool)) (n : N) : bool :=
  existsb (fun p => p n) items.
Definition none_of (items : list (N -> bool)) (n : N) : bool :=
  negb (any_of items n).

(** A literal string. *)
Fixpoint lit_chars (cs : list ascii) : regex :=
  match cs with
  | [] => Eps
  | [c] => Cls (chr_is c)
  | c :: cs' => Seq (Cls (chr_is c)) (lit_chars cs')
  end.
Definition lit (s : string) : regex := lit_chars (list_ascii_of_string s).

(** A literal string under [re.IGNORECASE]: an ASCII letter matches both of
    its cases. *)
Definition lower_cp (n : N) : N :=
  if ((65 <=? n) && (n <=? 90))%N then (n + 32)%N else n.
Definition chr_is_ci (c : ascii) (n : N) : bool :=
  (lower_cp (cp c) =? lower_cp n)%N.
Fixpoint lit_ci_chars (cs : list ascii) : regex :=
  match cs with
  | [] => Eps
  | [c] => Cls (chr_is_ci c)
  | c :: cs' => Seq (Cls (chr_is_ci c)) (lit_ci_chars cs')
  end.
Definition lit_ci (s : string) : regex := lit_ci_chars (list_ascii_of_string s).

(** [r1|r2|...]. *)
Fixpoint alts (rs : list regex) : regex :=
  match rs with
  | [] => Eps
  | [r] => r
  | r :: rs' => Alt r (alts rs')
  end.

(** [r1 r2 ...]. *)
Fixpoint seqs (rs : list regex) : regex :=
  match rs with
  | [] => Eps
  | [r] => r
  | r :: rs' => Seq r (seqs rs')
  end.

(** The classes [[A-Za-z0-9_]], [[0-9a-fA-F]] and [[A-Za-z0-9+/]]. *)
Definition word_cls : N -> bool :=
  any_of [in_rng "A" "Z"; in_rng "a" "z"; in_rng "0" "9"; chr_is "_"].
Definition hex_cls : N -> bool :=
  any_of [in_rng "0" "9"; in_rng "a" "f"; in_rng "A" "F"].
Definition b64_cls : N -> bool :=
  any_of [in_rng "A" "Z"; in_rng "a" "z"; in_rng "0" "9"; chr_is "+"; chr_is "/"].

(** [\w] of a [str] pattern on the code points below 256: the alphanumeric
    characters of Unicode and the underscore. *)
Definition uni_word (n : N) : bool :=
  word_cls n
  || (n =? 170)%N || (n =? 178)%N || (n =? 179)%N || (n =? 181)%N
  || (n =? 185)%N || (n =? 186)%N
  || ((188 <=? n) && (n <=? 190))%N
  || ((192 <=? n) && (n <=? 214))%N
  || ((216 <=? n) && (n <=? 246))%N
  || ((248 <=? n) && (n <=? 255))%N.

End Re.

Import Re.

(** [str] patterns run on the characters of the string, with Unicode's [\w];
    [bytes] patterns run on the bytes, with ASCII's. *)
Definition str_findall0 (r : regex) (s : string) : list string :=
  map string_of_list_ascii (findall0 N_of_ascii uni_word (list_ascii_of_string s) r).

Definition str_findall1 (r : regex) (s : string) : list string :=
  map string_of_list_ascii (findall1 N_of_ascii uni_word (list_ascii_of_string s) r).

Definition str_search (r : regex) (s : string) : bool :=
  search N_of_ascii uni_word (list_ascii_of_string s) r.

Definition bytes_findall2 (r : regex) (data : list byte)
  : list (list byte * list byte) :=
  findall2 Byte.to_N word_cls data r.

(** ** Patterns and classifiers of [tuya_binary_deep_scan.py] (lines 59-111) *)

(** [(/[a-zA-Z0-9_\-]+){2,}] *)
Definition MQTT_TOPIC_RE : regex :=
  Rep 2 None
    (Grp 1 (Seq (Cls (chr_is "/"))
                (Rep 1 None
                   (Cls (any_of [in_rng "a" "z"; in_rng "A" "Z"; in_rng "0" "9";
                                 chr_is "_"; chr_is "-"]))))).

(** ["(?:devId|gwId|dps|uid|localKey|schemaId|productKey|cid)"] *)
Definition TUYA_DP_RE : regex :=
  seqs [Cls (chr_is dquote);
        alts [lit "devId"; lit "gwId"; lit "dps"; lit "uid"; lit "localKey";
              lit "schemaId"; lit "productKey"; lit "cid"];
        Cls (chr_is dquote)].

(** [\b[0-9a-fA-F]{32}\b|\b[0-9a-fA-F]{48}\b|\b[0-9a-fA-F]{64}\b] *)
Definition AES_KEY_HEX_RE : regex :=
  alts [seqs [Bnd; Rep 32 (Some 32%nat) (Cls hex_cls); Bnd];
        seqs [Bnd; Rep 48 (Some 48%nat) (Cls hex_cls); Bnd];
        seqs [Bnd; Rep 64 (Some 64%nat) (Cls hex_cls); Bnd]].

(** [\b[A-Za-z0-9+/]{22,}={0,2}\b] *)
Definition BASE64_KEY_RE : regex :=
  seqs [Bnd; Rep 22 None (Cls b64_cls); Rep 0 (Some 2%nat) (Cls (chr_is "=")); Bnd].

(** [(signature|authKey|localKey|HMAC|SHA256|ECDSA|curve25519|X-Amz-Signature)]
    with [re.IGNORECASE] *)
Definition TUYA_SIG_HINT_RE : regex :=
  Grp 1 (alts [lit_ci "signature"; lit_ci "authKey"; lit_ci "localKey";
               lit_ci "HMAC"; lit_ci "SHA256"; lit_ci "ECDSA";
               lit_ci "curve25519"; lit_ci "X-Amz-Signature"]).

Definition json_like_test (s : string) : bool :=
  str_contains "{" s && str_contains "}" s && str_contains ":" s
  && (Z.of_nat (String.length s) <=? 512).

Definition find_json_like (strings : list string) : list string :=
  uniq (List.filter json_like_test strings).

(** [s] is appended once for every match of the pattern in [s]. *)
Definition mqtt_hits (s : string) : list string :=
  map (fun _ => s) (str_findall1 MQTT_TOPIC_RE s).

Definition find_mqtt_topics (strings : list string) : list string :=
  uniq (flat_map mqtt_hits strings).

Definition find_tuya_dp (strings : list string) : list string :=
  uniq (List.filter (str_search TUYA_DP_RE) strings).

(** The two components of the pair returned by [find_keys]; the recovered
    items are already [str], so the [isinstance] branch keeps them. *)
Definition find_keys_hex (strings : list string) : list string :=
  uniq (flat_map (str_findall0 AES_KEY_HEX_RE) strings).

Definition find_keys_b64 (strings : list string) : list string :=
  uniq (flat_map (str_findall0 BASE64_KEY_RE) strings).

Definition find_keys (strings : list string) : list string * list string :=
  (find_keys_hex strings, find_keys_b64 strings).

Definition find_tuya_sig (strings : list string) : list string :=
  uniq (List.filter (str_search TUYA_SIG_HINT_RE) strings).

(** The category mapping built by [analyze_binary] (lines 130-134 and
    149-154) from the recovered strings. *)
Record classification : Type := {
  json_like : list string;
  mqtt_topics_like : list string;
  tuya_dp_fragments : list string;
  aes_key_hex_candidates : list string;
  base64_key_candidates : list string;
  tuya_signature_related : list string
}.

Definition classify (all_strings : list string) : classification :=
  {| json_like := find_json_like all_strings;
     mqtt_topics_like := find_mqtt_topics all_strings;
     tuya_dp_fragments := find_tuya_dp all_strings;
     aes_key_hex_candidates := (find_keys all_strings).1;
     base64_key_candidates := (find_keys all_strings).2;
     tuya_signature_related := find_tuya_sig all_strings |}.

(** [ascii_strings + utf16_strings] of [analyze_binary] (lines 125-128). *)
Definition all_strings (data : list byte) : list string :=
  extract_ascii_strings data 4 ++ extract_utf16le_strings data 4.

(** ** Key/value extraction and blob verdict
       ([tuya_nvram_blob_detector.py]) *)

Definition KEYWORDS : list (list byte) :=
  map bytes_lit
    ["UUID"; "AUTHKEY"; "P2PID"; "PID"; "MAC"; "SN";
     "uuid"; "authkey"; "p2pid"; "pid"; "mac"; "sn";
     "localKey"; "devId"; "productKey"]%string.

(** [([A-Za-z0-9_]{2,32})=([^\x00\r\n]{1,128})] *)
Definition ASCII_KV_RE : regex :=
  seqs [Grp 1 (Rep 2 (Some 32%nat) (Cls word_cls));
        Cls (chr_is "=");
        Grp 2 (Rep 1 (Some 128%nat)
                 (Cls (none_of [N.eqb 0; N.eqb 13; N.eqb 10])))].

(** [((?:[A-Za-z0-9_]\x00){2,32})=((?:.\x00){2,128})]; the dot of a pattern
    without [re.DOTALL] matches everything but the line feed. *)
Definition UTF16_KV_RE : regex :=
  seqs [Grp 1 (Rep 2 (Some 32%nat) (Seq (Cls word_cls) (Cls (N.eqb 0))));
        Cls (chr_is "=");
        Grp 2 (Rep 2 (Some 128%nat)
                 (Seq (Cls (none_of [N.eqb 10])) (Cls (N.eqb 0))))].

(** [bs.decode("ascii", "ignore")]: bytes above 127 are dropped. *)
Definition decode_ascii_ignore (bs : list byte) : string :=
  join (map chr (List.filter (fun b => (Byte.to_N b <? 128)%N) bs)).

(** [bs.decode("utf-16le", "ignore")] on a group of [UTF16_KV_RE]: there
    every code unit is a byte followed by a zero byte, and decodes to the
    character with the code point of that byte. *)
Definition decode_utf16le_ignore (bs : list byte) : string :=
  join (map (fun p : byte * byte => chr p.1) (byte_pairs bs)).

(** The values stored in the [hits] dictionary. *)
Inductive pyval : Type :=
| VStrs (l : list string)
| VPairs (l : list (string * string))
| VBool (b : bool)
| VInt (n : Z).

(** Lines 34-37. *)
Definition keyword_hits (data : list byte) : list string :=
  map decode_ascii_ignore (List.filter (fun kw => contains kw data) KEYWORDS).

(** Lines 42-46. *)
Definition ascii_hits (data : list byte) : list (string * string) :=
  map (fun m : list byte * list byte =>
         (decode_ascii_ignore m.1, decode_ascii_ignore m.2))
      (bytes_findall2 ASCII_KV_RE data).

(** Lines 51-55. *)
Definition utf16_hits (data : list byte) : list (string * string) :=
  map (fun m : list byte * list byte =>
         (decode_utf16le_ignore m.1, decode_utf16le_ignore m.2))
      (bytes_findall2 UTF16_KV_RE data).

(** [entropy = len(set(data))] (line 60). *)
Definition entropy (data : list byte) : Z :=
  Z.of_nat (size (list_to_set data : gset byte)).

(** [if lst: hits[key] = value] for a list [lst]. *)
Definition set_if_nonempty {X} (lst : list X) (key : string) (v : pyval)
    (hits : gmap string pyval) : gmap string pyval :=
  match lst with
  | [] => hits
  | _ :: _ => <[key := v]> hits
  end.

(** The signals collected on lines 31-62. *)
Definition signals (data : list byte) : gmap string pyval :=
  let hits : gmap string pyval := ∅ in
  let hits := set_if_nonempty (keyword_hits data) "keyword_hits"
                (VStrs (keyword_hits data)) hits in
  let hits := set_if_nonempty (ascii_hits data) "ascii_kv"
                (VPairs (ascii_hits data)) hits in
  let hits := set_if_nonempty (utf16_hits data) "utf16_kv"
                (VPairs (utf16_hits data)) hits in
  if entropy data <? 200 then <["low_entropy_hint" := VBool true]> hits
  else hits.

(** The checks behind the size gate (lines 31-68): the signals are
    collected, and the verdict carries them and the size when some signal
    was recorded ([if hits:] tests that the dictionary is not empty). *)
Definition verdict (data : list byte) : option (gmap string pyval) :=
  let hits := signals data in
  if negb (Nat.eqb (size hits) 0)
  then Some (<["size" := VInt (Z.of_nat (length data))]> hits)
  else None.

(** [scan_blob] once the file has been read into [data] (lines 27-68); a
    file that cannot be read yields [None] before that. *)
Definition scan_blob (data : list byte) : option (gmap string pyval) :=
  let size := Z.of_nat (length data) in
  if (size <? 32) || (size >? 1024 * 1024) then None
  else verdict data.

(** The low-entropy flag of the verdict of [data] is set. *)
Definition low_entropy_flag_set (data : list byte) : Prop :=
  exists v, scan_blob data = Some v /\ v !! "low_entropy_hint" = Some (VBool true).

(** ** Patterns and classifier of [tuya_rts3903_static_recon.py]
       (lines 52-129) *)

(** [https?://[a-zA-Z0-9\.\-_/:%\?\=&]+] *)
Definition URL_RE : regex :=
  seqs [lit "http"; Rep 0 (Some 1%nat) (Cls (chr_is "s")); lit "://";
        Rep 1 None
          (Cls (any_of [in_rng "a" "z"; in_rng "A" "Z"; in_rng "0" "9";
                        chr_is "."; chr_is "-"; chr_is "_"; chr_is "/";
                        chr_is ":"; chr_is "%"; chr_is "?"; chr_is "=";
                        chr_is "&"]))].

(** [\b[a-zA-Z0-9\.\-]+\.(?:tuya(?:cloud)?\.com|tuyaeu\.com|tuyaus\.com|amazonaws\.com|aliyun\.com)\b] *)
Definition HOST_RE : regex :=
  seqs [Bnd;
        Rep 1 None
          (Cls (any_of [in_rng "a" "z"; in_rng "A" "Z"; in_rng "0" "9";
                        chr_is "."; chr_is "-"]));
        Cls (chr_is ".");
        alts [seqs [lit "tuya"; Rep 0 (Some 1%nat) (lit "cloud"); lit ".com"];
              lit "tuyaeu.com"; lit "tuyaus.com"; lit "amazonaws.com";
              lit "aliyun.com"];
        Bnd].

(** [\b(mqtt|mqtts|amqps?)\b] with [re.IGNORECASE] *)
Definition MQTT_RE : regex :=
  seqs [Bnd;
        Grp 1 (alts [lit_ci "mqtt"; lit_ci "mqtts";
                     Seq (lit_ci "amqp") (Rep 0 (Some 1%nat) (Cls (chr_is_ci "s")))]);
        Bnd].

(** [([a-zA-Z0-9/_\-]+/(?:status|state|command|event|online|offline|dp|control|upgrade))] *)
Definition TOPIC_RE : regex :=
  Grp 1 (seqs [Rep 1 None
                 (Cls (any_of [in_rng "a" "z"; in_rng "A" "Z"; in_rng "0" "9";
                               chr_is "/"; chr_is "_"; chr_is "-"]));
               Cls (chr_is "/");
               alts [lit "status"; lit "state"; lit "command"; lit "event";
                     lit "online"; lit "offline"; lit "dp"; lit "control";
                     lit "upgrade"]]).

Definition DEVICE_ID_KEYS : list string :=
  ["devId"; "deviceId"; "uuid"; "uid"; "authKey"; "localKey";
   "productKey"; "pk_id"; "schemaId"; "cid"; "clientId"]%string.

(** [\b[0-9a-fA-F]{16,64}\b] *)
Definition KEY_LIKE_RE : regex :=
  seqs [Bnd; Rep 16 (Some 64%nat) (Cls hex_cls); Bnd].

(** [\b[A-Za-z0-9+/]{16,}={0,2}\b] *)
Definition BASE64_RE : regex :=
  seqs [Bnd; Rep 16 None (Cls b64_cls); Rep 0 (Some 2%nat) (Cls (chr_is "=")); Bnd].

(** [(rts3903|rts3906|rts_soc|Realtek|RTL8188|8188fu|rts_)] with
    [re.IGNORECASE] *)
Definition REALTEK_RE : regex :=
  Grp 1 (alts [lit_ci "rts3903"; lit_ci "rts3906"; lit_ci "rts_soc";
               lit_ci "Realtek"; lit_ci "RTL8188"; lit_ci "8188fu";
               lit_ci "rts_"]).

(** [\bioctl\b] with [re.IGNORECASE] *)
Definition IOCTL_RE : regex := seqs [Bnd; lit_ci "ioctl"; Bnd].

(** [\b(ov[0-9]{3,4}|gc[0-9]{3,4}|ar0[0-9]{3}|imx[0-9]{3,4}|jxf[0-9]{3,4}|ispfw|isp_firmware|sensor_init|sensor_drv|mipi_rx)\b]
    with [re.IGNORECASE] *)
Definition SENSOR_RE : regex :=
  seqs [Bnd;
        Grp 1 (alts [Seq (lit_ci "ov") (Rep 3 (Some 4%nat) (Cls (in_rng "0" "9")));
                     Seq (lit_ci "gc") (Rep 3 (Some 4%nat) (Cls (in_rng "0" "9")));
                     Seq (lit_ci "ar0") (Rep 3 (Some 3%nat) (Cls (in_rng "0" "9")));
                     Seq (lit_ci "imx") (Rep 3 (Some 4%nat) (Cls (in_rng "0" "9")));
                     Seq (lit_ci "jxf") (Rep 3 (Some 4%nat) (Cls (in_rng "0" "9")));
                     lit_ci "ispfw"; lit_ci "isp_firmware"; lit_ci "sensor_init";
                     lit_ci "sensor_drv"; lit_ci "mipi_rx"]);
        Bnd].

(** [(pairing|ap_mode|smartconfig|ezconfig|binding|unbind|activation)] with
    [re.IGNORECASE] *)
Definition PAIRING_RE : regex :=
  Grp 1 (alts [lit_ci "pairing"; lit_ci "ap_mode"; lit_ci "smartconfig";
               lit_ci "ezconfig"; lit_ci "binding"; lit_ci "unbind";
               lit_ci "activation"]).

(** [if R.search(s): lst.extend(R.findall(s))] for a pattern without
    groups. *)
Definition search_findall0 (r : regex) (s : string) : list string :=
  if str_search r s then str_findall0 r s else [].

(** [if R.search(s): lst.append(s)]. *)
Definition search_self (r : regex) (s : string) : list string :=
  if str_search r s then [s] else [].

(** Line 98: the matches of the group of [TOPIC_RE] longer than 4. *)
Definition topic_hits (s : string) : list string :=
  if str_search TOPIC_RE s
  then List.filter (fun t => 4 <? Z.of_nat (String.length t))
         (str_findall1 TOPIC_RE s)
  else [].

(** Lines 99-102: [s] is appended once if it contains one of the keys. *)
Definition device_id_hit (s : string) : list string :=
  if existsb (fun key => str_contains key s) DEVICE_ID_KEYS then [s] else [].

(** The dictionary returned by [analyze_strings] (lines 116-128). *)
Record recon_info : Type := {
  urls : list string;
  hosts : list string;
  mqtt_strings : list string;
  mqtt_topics : list string;
  device_id_hits : list string;
  key_like : list string;
  base64_like : list string;
  realtek : list string;
  ioctls : list string;
  sensor : list string;
  pairing : list string
}.

Definition analyze_strings (strings : list string) : recon_info :=
  {| urls := uniq_preserve (flat_map (search_findall0 URL_RE) strings);
     hosts := uniq_preserve (flat_map (search_findall0 HOST_RE) strings);
     mqtt_strings := uniq_preserve (flat_map (search_self MQTT_RE) strings);
     mqtt_topics := uniq_preserve (flat_map topic_hits strings);
     device_id_hits := uniq_preserve (flat_map device_id_hit strings);
     key_like := uniq_preserve (flat_map (search_findall0 KEY_LIKE_RE) strings);
     base64_like := uniq_preserve (flat_map (search_findall0 BASE64_RE) strings);
     realtek := uniq_preserve (flat_map (search_self REALTEK_RE) strings);
     ioctls := uniq_preserve (flat_map (search_self IOCTL_RE) strings);
     sensor := uniq_preserve (flat_map (search_self SENSOR_RE) strings);
     pairing := uniq_preserve (flat_map (search_self PAIRING_RE) strings) |}.

(** ** Vocabulary of the properties *)

(** What a signal group contributes to the dictionary: nothing when the
    group is empty. *)
Definition group_field {X} (lst : list X) (v : pyval) : option pyval :=
  match lst with
  | [] => None
  | _ :: _ => Some v
  end.

Definition signal_keys : list string :=
  ["keyword_hits"; "ascii_kv"; "utf16_kv"; "low_entropy_hint"]%string.

(** Both scanner loops run the same automaton over a sequence of units
    (bytes, or byte pairs): a unit either contributes a character to the
    current run or ends the run. *)
Section RunLoop.
Context {X : Type}.
Variable unit_char : X -> option ascii.
Variable min_len : Z.
Variable units : list X.

Definition run_step (st : scan_state) (x : X) : scan_state :=
  match unit_char x with
  | Some c => (st.1, st.2 ++ [c])
  | None => (flush min_len st, [])
  end.

(** [cs] is read off the segment [seg], unit by unit. *)
Definition reads (cs : list ascii) (seg : list X) : Prop :=
  Forall2 (fun c x => unit_char x = Some c) cs seg.

(** [s] is long enough and is read off a contiguous segment of [units]. *)
Definition from_run (s : string) : Prop :=
  min_len <= Z.of_nat (String.length s)
  /\ exists pre seg post,
       units = pre ++ seg ++ post /\ reads (list_ascii_of_string s) seg.
End RunLoop.

(** The unit of the single-byte scanner, and that of the wide scanner. *)
Definition ascii_unit (b : byte) : option ascii :=
  if printable b then Some (chr b) else None.

Definition utf16_unit (p : byte * byte) : option ascii :=
  if bool_decide (p.2 = Byte.x00) && printable p.1 then Some (chr p.1) else None.

(** A character with code in [32,126]. *)
Definition printable_char (c : ascii) : Prop :=
  (32 <= N_of_ascii c <= 126)%N.

(** Two classifications that hold the same hits in every category, up to
    their order. *)
Definition same_hits (a b : classification) : Prop :=
  json_like a ≡ₚ json_like b
  /\ mqtt_topics_like a ≡ₚ mqtt_topics_like b
  /\ tuya_dp_fragments a ≡ₚ tuya_dp_fragments b
  /\ aes_key_hex_candidates a ≡ₚ aes_key_hex_candidates b
  /\ base64_key_candidates a ≡ₚ base64_key_candidates b
  /\ tuya_signature_related a ≡ₚ tuya_signature_related b.

Definition same_recon_hits (a b : recon_info) : Prop :=
  urls a ≡ₚ urls b
  /\ hosts a ≡ₚ hosts b
  /\ mqtt_strings a ≡ₚ mqtt_strings b
  /\ mqtt_topics a ≡ₚ mqtt_topics b
  /\ device_id_hits a ≡ₚ device_id_hits b
  /\ key_like a ≡ₚ key_like b
  /\ base64_like a ≡ₚ base64_like b
  /\ realtek a ≡ₚ realtek b
  /\ ioctls a ≡ₚ ioctls b
  /\ sensor a ≡ₚ sensor b
  /\ pairing a ≡ₚ pairing b.

(** Every category of a classification is free of duplicates. *)
Definition dedup (a : classification) : Prop :=
  NoDup (json_like a) /\ NoDup (mqtt_topics_like a)
  /\ NoDup (tuya_dp_fragments a) /\ NoDup (aes_key_hex_candidates a)
  /\ NoDup (base64_key_candidates a) /\ NoDup (tuya_signature_related a).

(** The byte [=], and the bytes a value may consist of: everything but NUL,
    CR and LF. *)
Definition eq_byte : byte := Byte.x3d.
Definition value_cls : N -> bool := none_of [N.eqb 0; N.eqb 13; N.eqb 10].


(** ** Sample buffers *)

(** [b"localKey=ABCDEF1234567890ABCDEF1234567890"] *)
Definition localKey_buffer : list byte :=
  bytes_lit "localKey=ABCDEF1234567890ABCDEF1234567890".

(** [b"A\x00U\x00T\x00H\x00K\x00E\x00Y\x00"] *)
Definition wide_AUTHKEY : list byte :=
  [x41; x00; x55; x00; x54; x00; x48; x00; x4b; x00; x45; x00; x59; x00].



(** All 256 byte values followed by the keyword [SN]. *)
Definition all_bytes_then_SN : list byte :=
  map (fun n => default Byte.x00 (Byte.of_N (N.of_nat n))) (seq 0 256)
  ++ bytes_lit "SN".


(** ** The remaining functions of the three scripts

    A file of the scanned tree is given by its path relative to the root
    and by what reading it returns: [None] when [open] or [read] raises.
    A tree is the list of its files in the order of [os.walk]. *)

Record file : Type := { f_rel : string; f_contents : option (list byte) }.

(** [PROTOBUF_FIELD_RE]: one of the 31 tag bytes [\x08 \x10 ... \xf8]
    followed by a byte in [\x01-\x7f]
    ([tuya_binary_deep_scan.py], line 60). *)
Definition proto_tag_cls : N -> bool :=
  any_of (map N.eqb
    [8; 16; 24; 32; 40; 48; 56; 64; 72; 80; 88; 96; 104; 112; 120; 128;
     136; 144; 152; 160; 168; 176; 184; 192; 200; 208; 216; 224; 232; 240;
     248]%N).

Definition PROTOBUF_FIELD_RE : regex :=
  Seq (Cls proto_tag_cls) (Cls (fun n => (1 <=? n) && (n <=? 127))%N).

(** [protobuf_entropy_score] (lines 114-117): the number of matches. *)
Definition protobuf_entropy_score (data : list byte) : Z :=
  Z.of_nat (length (findall0 Byte.to_N word_cls data PROTOBUF_FIELD_RE)).

(** [-----BEGIN (RSA |EC |)PUBLIC KEY-----] (line 65) *)
Definition RSA_PEM_RE : regex :=
  seqs [lit "-----BEGIN ";
        Grp 1 (alts [lit "RSA "; lit "EC "; Eps]);
        lit "PUBLIC KEY-----"].

(** [data.decode("latin1", "ignore")]: every byte is the character with its
    code point. *)
Definition decode_latin1 (data : list byte) : string := join (map chr data).

Definition pem_note : string :=
  "PEM public key header found (see binary in hex/strings for full block)".

(** Lines 136-138 of [analyze_binary]. *)
Definition rsa_pem (data : list byte) : list string :=
  if str_search RSA_PEM_RE (decode_latin1 data) then [pem_note] else [].

(** The report of [analyze_binary] (lines 122-156) on the contents of the
    file, without its [path] entry. *)
Record binary_report : Type := {
  stat_ascii_strings : Z;
  stat_utf16_strings : Z;
  stat_protobuf_field_tag_score : Z;
  categories : classification;
  rsa_pem_header : list string
}.

Definition analyze_binary (data : list byte) : binary_report :=
  {| stat_ascii_strings := Z.of_nat (length (extract_ascii_strings data 4));
     stat_utf16_strings := Z.of_nat (length (extract_utf16le_strings data 4));
     stat_protobuf_field_tag_score := protobuf_entropy_score data;
     categories := classify (all_strings data);
     rsa_pem_header := rsa_pem data |}.

(** [dump_section] (lines 180-186): the items that are listed, at most
    [max_items] of them, and the number announced as [... (n more)] when
    the list is longer. *)
Definition dump_section (items : list string) (max_items : nat)
  : list string * option Z :=
  (take max_items items,
   if Z.of_nat max_items <? Z.of_nat (length items)
   then Some (Z.of_nat (length items) - Z.of_nat max_items)
   else None).

(** [scan_blob(path)] of [tuya_nvram_blob_detector.py] (lines 20-68),
    reading included. *)
Definition scan_blob_file (contents : option (list byte))
  : option (gmap string pyval) :=
  match contents with
  | None => None
  | Some data => scan_blob data
  end.

(** The loop of [main] (lines 78-90): [results[rel] = res] for every file
    with a verdict. *)
Definition blob_results_step (results : gmap string (gmap string pyval))
    (f : file) : gmap string (gmap string pyval) :=
  match scan_blob_file (f_contents f) with
  | Some res => <[f_rel f := res]> results
  | None => results
  end.

Definition blob_results (tree : list file) : gmap string (gmap string pyval) :=
  fold_left blob_results_step tree ∅.

(** [filter_nvram_hits.py] (line 6): the test that selects a record of the
    report written by the detector. *)
Definition is_hit (info : gmap string pyval) : bool :=
  existsb (fun k : string => bool_decide (is_Some (info !! k)))
    ["keyword_hits"; "ascii_kv"; "utf16_kv"]%string.

Module StaticRecon.

(** [is_probably_elf] ([tuya_rts3903_static_recon.py], lines 10-16):
    the first four bytes that are read are the ELF magic. *)
Definition is_probably_elf (contents : option (list byte)) : bool :=
  match contents with
  | None => false
  | Some data => bool_decide (take 4 data = [x7f; x45; x4c; x46])
  end.

(** [extract_ascii_strings(path, min_len)] (lines 19-37): the loop of the
    deep scan, and no string for a file that cannot be read. *)
Definition extract_ascii_strings (contents : option (list byte)) (min_len : Z)
  : list string :=
  match contents with
  | None => []
  | Some data => flush min_len (fold_left (ascii_step min_len) data ([], []))
  end.

(** [info.values()] of the dictionary of [analyze_strings]. *)
Definition values (info : recon_info) : list (list string) :=
  [urls info; hosts info; mqtt_strings info; mqtt_topics info;
   device_id_hits info; key_like info; base64_like info; realtek info;
   ioctls info; sensor info; pairing info].

(** [any(info.values())]: some category is not empty. *)
Definition any_values (info : recon_info) : bool :=
  existsb (fun l : list string => negb (bool_decide (l = []))) (values info).

(** The loop of [scan_rootfs] (lines 165-177) without the search for
    [tycam]: files that are not ELF are skipped, and the record of a file is
    kept when some category is not empty. *)
Definition scan_rootfs_step (results : gmap string recon_info) (f : file)
  : gmap string recon_info :=
  if is_probably_elf (f_contents f) then
    let info := analyze_strings (extract_ascii_strings (f_contents f) 4) in
    if any_values info then <[f_rel f := info]> results else results
  else results.

Definition scan_rootfs (tree : list file) : gmap string recon_info :=
  fold_left scan_rootfs_step tree ∅.

End StaticRecon.

(** ** Vocabulary of the further properties *)

(** The two-byte little-endian encoding of a sequence of single-byte
    characters: every byte is followed by a zero byte. *)
Definition widen (data : list byte) : list byte :=
  flat_map (fun b => [b; Byte.x00]) data.

(** The step shared by the loops that build a report keyed by relative
    path: the record picked for a file, if any, is stored under its path. *)
Definition keep_step {V} (pick : file -> option V)
    (results : gmap string V) (f : file) : gmap string V :=
  match pick f with
  | Some v => <[f_rel f := v]> results
  | None => results
  end.

(** The ELF magic [b"\x7fELF"]. *)
Definition elf_magic : list byte := [x7f; x45; x4c; x46].

(** * Properties *)

(** ** The blob verdict *)

(** Case analysis on the four tests of [signals], each case closed by
    computing the lookups. *)
Ltac signals_cases data :=
  unfold signals, set_if_nonempty, group_field;
  destruct (keyword_hits data), (ascii_hits data), (utf16_hits data),
    (entropy data <? 200); by simplify_map_eq.

Lemma signals_keyword_hits (data : list byte) :
  signals data !! "keyword_hits"
  = group_field (keyword_hits data) (VStrs (keyword_hits data)).
Proof.
  signals_cases data.
Qed.

Lemma signals_ascii_kv (data : list byte) :
  signals data !! "ascii_kv"
  = group_field (ascii_hits data) (VPairs (ascii_hits data)).
Proof.
  signals_cases data.
Qed.

Lemma signals_utf16_kv (data : list byte) :
  signals data !! "utf16_kv"
  = group_field (utf16_hits data) (VPairs (utf16_hits data)).
Proof.
  signals_cases data.
Qed.

Lemma signals_low_entropy (data : list byte) :
  signals data !! "low_entropy_hint"
  = if entropy data <? 200 then Some (VBool true) else None.
Proof.
  signals_cases data.
Qed.

Lemma signals_other (data : list byte) (k : string) :
  k ∉ signal_keys -> signals data !! k = None.
Proof.
  unfold signal_keys. intros Hk.
  assert (k <> "keyword_hits" /\ k <> "ascii_kv" /\ k <> "utf16_kv"
          /\ k <> "low_entropy_hint")%string as (? & ? & ? & ?).
  { repeat split; intros ->; apply Hk; set_solver. }
  signals_cases data.
Qed.

(** The dictionary is empty exactly when no signal fired. *)
Lemma signals_empty (data : list byte) :
  size (signals data) = 0%nat
  <-> keyword_hits data = [] /\ ascii_hits data = [] /\ utf16_hits data = []
      /\ 200 <= entropy data.
Proof.
  rewrite map_size_empty_iff. split.
  - intros He.
    pose proof (signals_keyword_hits data) as H1.
    pose proof (signals_ascii_kv data) as H2.
    pose proof (signals_utf16_kv data) as H3.
    pose proof (signals_low_entropy data) as H4.
    rewrite He, lookup_empty in H1, H2, H3, H4.
    destruct (keyword_hits data), (ascii_hits data), (utf16_hits data);
      try discriminate.
    destruct (Z.ltb_spec (entropy data) 200); [discriminate | done].
  - intros (H1 & H2 & H3 & H4). unfold signals. rewrite H1, H2, H3. simpl.
    destruct (Z.ltb_spec (entropy data) 200); [lia | done].
Qed.

Lemma verdict_some (data : list byte) (v : gmap string pyval) :
  verdict data = Some v ->
  v = <["size" := VInt (Z.of_nat (length data))]> (signals data)
  /\ size (signals data) <> 0%nat.
Proof.
  unfold verdict. destruct (Nat.eqb_spec (size (signals data)) 0); simpl.
  - discriminate.
  - intros [= <-]. done.
Qed.

Lemma verdict_none (data : list byte) :
  verdict data = None <-> size (signals data) = 0%nat.
Proof.
  unfold verdict. destruct (Nat.eqb_spec (size (signals data)) 0); simpl.
  - done.
  - split; [discriminate | done].
Qed.

Lemma scan_blob_in_range (data : list byte) :
  32 <= Z.of_nat (length data) <= 1048576 -> scan_blob data = verdict data.
Proof.
  intros H. unfold scan_blob.
  replace (1024 * 1024) with 1048576 by reflexivity.
  destruct (Z.ltb_spec (Z.of_nat (length data)) 32); [lia |].
  destruct (Z.gtb_spec (Z.of_nat (length data)) 1048576); [lia | done].
Qed.

Lemma scan_blob_out_of_range (data : list byte) :
  Z.of_nat (length data) < 32 \/ 1048576 < Z.of_nat (length data) ->
  scan_blob data = None.
Proof.
  intros H. unfold scan_blob.
  replace (1024 * 1024) with 1048576 by reflexivity.
  destruct (Z.ltb_spec (Z.of_nat (length data)) 32); [done |].
  destruct (Z.gtb_spec (Z.of_nat (length data)) 1048576); [done | lia].
Qed.

(** A buffer has at most as many distinct byte values as bytes. *)
Lemma entropy_le_length (data : list byte) :
  entropy data <= Z.of_nat (length data).
Proof.
  unfold entropy. apply inj_le.
  induction data as [| b data IH].
  - rewrite list_to_set_nil, size_empty. simpl. lia.
  - rewrite list_to_set_cons, size_union_alt, size_singleton.
    assert (size (list_to_set data ∖ {[ b ]} : gset byte)
            <= size (list_to_set data : gset byte))%nat as Hle.
    { apply subseteq_size. set_solver. }
    simpl. lia.
Qed.

Lemma entropy_replicate (n : nat) (b : byte) : entropy (replicate n b) <= 1.
Proof.
  unfold entropy.
  assert (size (list_to_set (replicate n b) : gset byte) <= size ({[ b ]} : gset byte))%nat as Hle.
  { apply subseteq_size. intros x. rewrite elem_of_list_to_set, elem_of_singleton.
    intros Hx. by apply elem_of_replicate in Hx as [-> _]. }
  rewrite size_singleton in Hle. lia.
Qed.

(** The fields of a verdict, read off the signals. *)
Lemma verdict_fields (data : list byte) (v : gmap string pyval) :
  verdict data = Some v ->
  v !! "size" = Some (VInt (Z.of_nat (length data)))
  /\ v !! "keyword_hits" = group_field (keyword_hits data) (VStrs (keyword_hits data))
  /\ v !! "ascii_kv" = group_field (ascii_hits data) (VPairs (ascii_hits data))
  /\ v !! "utf16_kv" = group_field (utf16_hits data) (VPairs (utf16_hits data))
  /\ v !! "low_entropy_hint" = (if entropy data <? 200 then Some (VBool true) else None)
  /\ (forall k : string, k ∉ ("size"%string :: signal_keys) -> v !! k = None).
Proof.
  intros Hv. apply verdict_some in Hv as [-> _].
  rewrite lookup_insert_eq.
  rewrite !lookup_insert_ne by done.
  rewrite signals_keyword_hits, signals_ascii_kv, signals_utf16_kv,
    signals_low_entropy.
  repeat split; try done.
  intros k Hk. rewrite lookup_insert_ne by (intros <-; apply Hk; set_solver).
  apply signals_other. set_solver.
Qed.

(** A buffer inside the size bounds with fewer than 200 distinct byte
    values gets a verdict that carries the flag. *)
Lemma low_entropy_verdict (data : list byte) :
  32 <= Z.of_nat (length data) <= 1048576 ->
  entropy data < 200 ->
  low_entropy_flag_set data.
Proof.
  intros Hr He. unfold low_entropy_flag_set.
  rewrite scan_blob_in_range by done.
  destruct (verdict data) as [v |] eqn:Hv.
  - exists v. split; [done |].
    apply verdict_fields in Hv as (_ & _ & _ & _ & -> & _).
    destruct (Z.ltb_spec (entropy data) 200); [done | lia].
  - apply verdict_none, signals_empty in Hv as (_ & _ & _ & ?). lia.
Qed.

(** C1: the size gate.  A buffer shorter than 32 bytes or longer than
    1,048,576 bytes yields no verdict (in particular one of 31 bytes and one
    of 1,048,577 bytes); a buffer whose length lies in [32, 1048576]
    (in particular 32 and 1,048,576) passes the gate, and its result is that
    of the remaining checks. *)
Theorem scan_blob_size_gate (data : list byte) :
  (Z.of_nat (length data) < 32 \/ 1048576 < Z.of_nat (length data) ->
   scan_blob data = None)
  /\ (32 <= Z.of_nat (length data) <= 1048576 -> scan_blob data = verdict data)
  /\ (Z.of_nat (length data) = 31 -> scan_blob data = None)
  /\ (Z.of_nat (length data) = 1048577 -> scan_blob data = None)
  /\ (Z.of_nat (length data) = 32 -> scan_blob data = verdict data)
  /\ (Z.of_nat (length data) = 1048576 -> scan_blob data = verdict data).
Proof.
  repeat split; intros H.
  - by apply scan_blob_out_of_range.
  - by apply scan_blob_in_range.
  - apply scan_blob_out_of_range. lia.
  - apply scan_blob_out_of_range. lia.
  - apply scan_blob_in_range. lia.
  - apply scan_blob_in_range. lia.
Qed.

Lemma scan_blob_size_gate_witness :
  scan_blob (replicate 31 Byte.x00) = None
  /\ scan_blob (replicate 32 Byte.x00) = verdict (replicate 32 Byte.x00).
Proof.
  split.
  - apply (proj1 (scan_blob_size_gate (replicate 31 Byte.x00))). simpl. lia.
  - apply (proj1 (proj2 (scan_blob_size_gate (replicate 32 Byte.x00)))). simpl. lia.
Defined.

(** The gate is what withholds the verdict: the remaining checks alone would
    accept the empty buffer. *)
Example verdict_without_gate :
  scan_blob [] = None /\ is_Some (verdict []).
Proof.
  split; [reflexivity |].
  destruct (verdict []) eqn:Hv; [by eexists |].
  apply verdict_none, signals_empty in Hv as (_ & _ & _ & He).
  vm_compute in He. by destruct He.
Qed.

(** Buffers at both ends of the admitted range do get a verdict. *)
Example scan_blob_at_bounds :
  (forall data : list byte, Z.of_nat (length data) = 32 -> is_Some (scan_blob data))
  /\ exists data : list byte,
       Z.of_nat (length data) = 1048576 /\ is_Some (scan_blob data).
Proof.
  split.
  - intros data Hl.
    destruct (low_entropy_verdict data) as (v & -> & _); [lia | | by eexists].
    pose proof (entropy_le_length data). lia.
  - exists (replicate (Z.to_nat 1048576) Byte.x00).
    assert (Z.of_nat (length (replicate (Z.to_nat 1048576) Byte.x00)) = 1048576) as Hl.
    { rewrite length_replicate. apply Z2Nat.id. lia. }
    split; [exact Hl |].
    destruct (low_entropy_verdict (replicate (Z.to_nat 1048576) Byte.x00))
      as (v & -> & _); [lia | | by eexists].
    pose proof (entropy_replicate (Z.to_nat 1048576) Byte.x00). lia.
Qed.

(** C4, as amended: for every buffer that passes the size gate the
    low-entropy flag is set if and only if fewer than 200 distinct byte
    values occur in it; and for any buffer in which at least 200 distinct
    byte values occur the flag is never set, also when the buffer contains a
    credential keyword (it then gets a verdict with the keyword hits and
    without the flag). *)
Theorem low_entropy_flag_iff (data : list byte) :
  (32 <= Z.of_nat (length data) <= 1048576 ->
   (low_entropy_flag_set data <-> entropy data < 200))
  /\ (200 <= entropy data -> ~ low_entropy_flag_set data)
  /\ (32 <= Z.of_nat (length data) <= 1048576 ->
      200 <= entropy data -> keyword_hits data <> [] ->
      exists v, scan_blob data = Some v
                /\ v !! "keyword_hits" = Some (VStrs (keyword_hits data))
                /\ v !! "low_entropy_hint" = None).
Proof.
  assert (200 <= entropy data -> ~ low_entropy_flag_set data) as Hno.
  { intros He (v & Hs & Hf).
    unfold scan_blob in Hs.
    destruct (_ || _) in Hs; [discriminate |].
    apply verdict_fields in Hs as (_ & _ & _ & _ & Hl & _).
    rewrite Hl in Hf.
    destruct (Z.ltb_spec (entropy data) 200); [lia | discriminate]. }
  split; [| split].
  - intros Hr. split.
    + intros Hf. destruct (Z.lt_ge_cases (entropy data) 200); [done |].
      by destruct Hno.
    + by apply low_entropy_verdict.
  - exact Hno.
  - intros Hr He Hk. rewrite scan_blob_in_range by done.
    destruct (verdict data) as [v |] eqn:Hv.
    + exists v. split; [done |].
      apply verdict_fields in Hv as (_ & -> & _ & _ & -> & _).
      split.
      * by destruct (keyword_hits data).
      * destruct (Z.ltb_spec (entropy data) 200); [lia | done].
    + apply verdict_none, signals_empty in Hv as (? & _). done.
Qed.

Lemma low_entropy_flag_iff_witness :
  (low_entropy_flag_set (replicate 32 Byte.x00)
   <-> entropy (replicate 32 Byte.x00) < 200)
  /\ ~ low_entropy_flag_set all_bytes_then_SN
  /\ exists v, scan_blob all_bytes_then_SN = Some v
               /\ v !! "keyword_hits" = Some (VStrs (keyword_hits all_bytes_then_SN))
               /\ v !! "low_entropy_hint" = None.
Proof.
  split; [| split].
  - apply (proj1 (low_entropy_flag_iff (replicate 32 Byte.x00))). simpl. lia.
  - apply (proj1 (proj2 (low_entropy_flag_iff all_bytes_then_SN))).
    vm_compute. discriminate.
  - apply (proj2 (proj2 (low_entropy_flag_iff all_bytes_then_SN))).
    + vm_compute. split; discriminate.
    + vm_compute. discriminate.
    + vm_compute. discriminate.
Defined.

(** C4 as stated fails below the size gate: a 9-byte buffer has fewer than
    200 distinct byte values, yet no flag is set, since there is no verdict
    at all. *)
Lemma low_entropy_flag_small_buffer :
  ~ (low_entropy_flag_set (bytes_lit "UUID=1234")
     <-> entropy (bytes_lit "UUID=1234") < 200).
Proof.
  intros [_ H].
  destruct H as (v & Hs & _); [vm_compute; reflexivity |].
  vm_compute in Hs. discriminate.
Qed.

(** C5: for every buffer that passes the size gate, a verdict is returned if
    and only if one of the three signal groups fired (keyword hits, ASCII or
    wide key/value pairs, low-entropy flag); a returned verdict holds the
    buffer size and, for each group, its value when the group fired and no
    entry when it did not, and it holds nothing else. *)
Theorem scan_blob_verdict (data : list byte) :
  32 <= Z.of_nat (length data) <= 1048576 ->
  (is_Some (scan_blob data)
   <-> keyword_hits data <> []
       \/ (ascii_hits data <> [] \/ utf16_hits data <> [])
       \/ entropy data < 200)
  /\ forall v : gmap string pyval,
       scan_blob data = Some v ->
       v !! "size" = Some (VInt (Z.of_nat (length data)))
       /\ v !! "keyword_hits"
          = group_field (keyword_hits data) (VStrs (keyword_hits data))
       /\ v !! "ascii_kv"
          = group_field (ascii_hits data) (VPairs (ascii_hits data))
       /\ v !! "utf16_kv"
          = group_field (utf16_hits data) (VPairs (utf16_hits data))
       /\ v !! "low_entropy_hint"
          = (if entropy data <? 200 then Some (VBool true) else None)
       /\ (forall k : string,
             k ∉ ("size"%string :: signal_keys) -> v !! k = None).
Proof.
  intros Hr. rewrite scan_blob_in_range by done. split.
  - split.
    + intros [v Hv]. apply verdict_some in Hv as [_ Hne].
      rewrite signals_empty in Hne.
      destruct (keyword_hits data); [| by left].
      destruct (ascii_hits data); [| by right; left; left].
      destruct (utf16_hits data); [| by right; left; right].
      right; right. destruct (Z.lt_ge_cases (entropy data) 200); [done |].
      by destruct Hne.
    + intros Hsig. destruct (verdict data) eqn:Hv; [by eexists |].
      apply verdict_none, signals_empty in Hv as (H1 & H2 & H3 & H4).
      destruct Hsig as [? | [[? | ?] | ?]]; [done | done | done | lia].
  - apply verdict_fields.
Qed.

Lemma scan_blob_verdict_witness :
  32 <= Z.of_nat (length localKey_buffer) <= 1048576
  /\ (is_Some (scan_blob localKey_buffer)
      <-> keyword_hits localKey_buffer <> []
          \/ (ascii_hits localKey_buffer <> [] \/ utf16_hits localKey_buffer <> [])
          \/ entropy localKey_buffer < 200).
Proof.
  assert (32 <= Z.of_nat (length localKey_buffer) <= 1048576) as Hr
    by (simpl; lia).
  split; [exact Hr |].
  exact (proj1 (scan_blob_verdict localKey_buffer Hr)).
Defined.

(** The verdict of that buffer: the keyword, the pair, the flag and the
    size; no [utf16_kv] entry. *)
Example scan_blob_localKey :
  exists v, scan_blob localKey_buffer = Some v
    /\ v !! "size" = Some (VInt 41)
    /\ v !! "keyword_hits" = Some (VStrs ["localKey"%string])
    /\ v !! "ascii_kv"
       = Some (VPairs [("localKey", "ABCDEF1234567890ABCDEF1234567890")%string])
    /\ v !! "utf16_kv" = None
    /\ v !! "low_entropy_hint" = Some (VBool true).
Proof.
  assert (32 <= Z.of_nat (length localKey_buffer) <= 1048576) as Hr
    by (simpl; lia).
  destruct (scan_blob localKey_buffer) as [v |] eqn:Hv.
  - exists v. split; [done |].
    rewrite scan_blob_in_range in Hv by done.
    apply verdict_fields in Hv as (-> & -> & -> & -> & -> & _).
    vm_compute. done.
  - rewrite scan_blob_in_range in Hv by done.
    apply verdict_none, signals_empty in Hv as (_ & _ & _ & He).
    vm_compute in He. by destruct He.
Qed.

(** C9: every buffer of 32 to 199 bytes gets a verdict with the
    low-entropy flag set, since it cannot hold 200 distinct byte values. *)
Theorem short_buffer_low_entropy (data : list byte) :
  32 <= Z.of_nat (length data) <= 199 ->
  entropy data < 200 /\ low_entropy_flag_set data.
Proof.
  intros Hr. pose proof (entropy_le_length data).
  split; [lia |]. apply low_entropy_verdict; lia.
Qed.

Lemma short_buffer_low_entropy_witness :
  32 <= Z.of_nat (length localKey_buffer) <= 199
  /\ entropy localKey_buffer < 200 /\ low_entropy_flag_set localKey_buffer.
Proof.
  assert (32 <= Z.of_nat (length localKey_buffer) <= 199) as Hr
    by (simpl; lia).
  split; [exact Hr |].
  exact (short_buffer_low_entropy localKey_buffer Hr).
Defined.

(** ** The byte-run scanners *)

Lemma N_of_ascii_chr (b : byte) : N_of_ascii (chr b) = Byte.to_N b.
Proof.
  unfold chr. rewrite ascii_of_byte_via_N. apply N_ascii_embedding.
  pose proof (Byte.to_N_bounded b). lia.
Qed.

Lemma length_join (cur : list ascii) : String.length (join cur) = length cur.
Proof. induction cur as [| c cur IH]; simpl; [done | by rewrite IH]. Qed.

Lemma chars_join (cur : list ascii) : list_ascii_of_string (join cur) = cur.
Proof. apply list_ascii_of_string_of_list_ascii. Qed.

Section RunLoopFacts.
Context {X : Type}.
Variable unit_char : X -> option ascii.
Variable min_len : Z.
Variable units : list X.

Lemma flush_from_run (done post : list X) (out : list string) (cur : list ascii) :
  units = done ++ post ->
  (forall s, s ∈ out -> from_run unit_char min_len units s) ->
  (exists pre seg, done = pre ++ seg /\ reads unit_char cur seg) ->
  forall s, s ∈ flush min_len (out, cur) -> from_run unit_char min_len units s.
Proof.
  intros Hu Hout (pre & seg & Hd & Hc) s. unfold flush. simpl.
  destruct (Z.leb_spec min_len (Z.of_nat (length cur))) as [Hl | Hl];
    [| by auto].
  rewrite elem_of_app, list_elem_of_singleton. intros [Hs | ->]; [by auto |].
  split.
  - by rewrite length_join.
  - exists pre, seg, post. rewrite chars_join. split; [| done].
    by rewrite Hu, Hd, <- app_assoc.
Qed.

Lemma run_loop_from_run (rest : list X) :
  forall (done : list X) (out : list string) (cur : list ascii),
    units = done ++ rest ->
    (forall s, s ∈ out -> from_run unit_char min_len units s) ->
    (exists pre seg, done = pre ++ seg /\ reads unit_char cur seg) ->
    forall s, s ∈ flush min_len (fold_left (run_step unit_char min_len) rest (out, cur)) ->
              from_run unit_char min_len units s.
Proof.
  induction rest as [| x rest IH]; intros done out cur Hu Hout Hcur.
  - simpl. by apply (flush_from_run done []).
  - simpl. unfold run_step at 2. simpl.
    destruct Hcur as (pre & seg & Hd & Hc).
    destruct (unit_char x) as [c |] eqn:Hx.
    + apply (IH (done ++ [x])).
      * by rewrite <- app_assoc.
      * done.
      * exists pre, (seg ++ [x]). split; [by rewrite Hd, <- app_assoc |].
        apply Forall2_app; [done |]. by constructor.
    + apply (IH (done ++ [x])).
      * by rewrite <- app_assoc.
      * apply (flush_from_run done (x :: rest)); [done | done |].
        by exists pre, seg.
      * exists (done ++ [x]), []. split; [by rewrite app_nil_r |].
        constructor.
Qed.

Lemma run_loop_all_from_run (s : string) :
  s ∈ flush min_len (fold_left (run_step unit_char min_len) units ([], [])) -> from_run unit_char min_len units s.
Proof.
  apply (run_loop_from_run units []); [done | |].
  - intros s' Hs'. by apply elem_of_nil in Hs'.
  - exists [], []. split; [done | constructor].
Qed.
End RunLoopFacts.

Lemma fold_left_pointwise {S X} (f g : S -> X -> S) (xs : list X) (st : S) :
  (forall st x, f st x = g st x) -> fold_left f xs st = fold_left g xs st.
Proof.
  intros Hfg. revert st.
  induction xs as [| x xs IH]; intros st; simpl; [done |].
  by rewrite Hfg, IH.
Qed.

Lemma extract_ascii_strings_run (data : list byte) (min_len : Z) :
  extract_ascii_strings data min_len
  = flush min_len (fold_left (run_step ascii_unit min_len) data ([], [])).
Proof.
  unfold extract_ascii_strings. f_equal. apply fold_left_pointwise.
  intros st b. unfold ascii_step, run_step, ascii_unit.
  by destruct (printable b).
Qed.

Lemma extract_utf16le_strings_run (data : list byte) (min_len : Z) :
  extract_utf16le_strings data min_len
  = flush min_len
      (fold_left (run_step utf16_unit min_len) (byte_pairs data) ([], [])).
Proof.
  unfold extract_utf16le_strings. f_equal. apply fold_left_pointwise.
  intros st [lo hi]. unfold utf16_step, run_step, utf16_unit. simpl.
  by destruct (bool_decide (hi = Byte.x00) && printable lo).
Qed.

Lemma printable_chr (b : byte) : printable b = true -> printable_char (chr b).
Proof.
  unfold printable, printable_char. rewrite N_of_ascii_chr.
  intros [H1 H2]%andb_prop. apply N.leb_le in H1. apply N.ltb_lt in H2. lia.
Qed.

Lemma reads_ascii_unit (cs : list ascii) (seg : list byte) :
  reads ascii_unit cs seg ->
  Forall printable_char cs /\ seg = map byte_of_ascii cs.
Proof.
  induction 1 as [| c b cs seg Hb _ [IH1 IH2]]; [done |].
  unfold ascii_unit in Hb. destruct (printable b) eqn:Hp; [| discriminate].
  injection Hb as <-. split.
  - constructor; [by apply printable_chr | done].
  - simpl. unfold chr. by rewrite byte_of_ascii_of_byte, IH2.
Qed.

Lemma reads_utf16_unit (cs : list ascii) (seg : list (byte * byte)) :
  reads utf16_unit cs seg ->
  Forall printable_char cs
  /\ seg = map (fun c => (byte_of_ascii c, Byte.x00)) cs.
Proof.
  induction 1 as [| c [lo hi] cs seg Hb _ [IH1 IH2]]; [done |].
  unfold utf16_unit in Hb. simpl in Hb.
  destruct (bool_decide_reflect (hi = Byte.x00)) as [-> |]; [| discriminate].
  destruct (printable lo) eqn:Hp; [| discriminate].
  injection Hb as <-. split.
  - constructor; [by apply printable_chr | done].
  - simpl. unfold chr. by rewrite byte_of_ascii_of_byte, IH2.
Qed.

(** C6: every string produced by the single-byte scanner has length at
    least [min_len] and consists of characters with code in [32,126], and is
    a run of bytes of the buffer; every string produced by the wide scanner
    has length at least [min_len] and is read off consecutive byte pairs of
    the buffer whose second byte is zero and whose first byte is the
    printable character.  This holds for every [min_len], in particular for
    those that are at least 1. *)
Theorem recovered_strings_sound (data : list byte) (min_len : Z) :
  (forall s : string,
     s ∈ extract_ascii_strings data min_len ->
     min_len <= Z.of_nat (String.length s)
     /\ Forall printable_char (list_ascii_of_string s)
     /\ exists pre post,
          data = pre ++ map byte_of_ascii (list_ascii_of_string s) ++ post)
  /\ (forall s : string,
        s ∈ extract_utf16le_strings data min_len ->
        min_len <= Z.of_nat (String.length s)
        /\ Forall printable_char (list_ascii_of_string s)
        /\ exists pre post,
             byte_pairs data
             = pre ++ map (fun c => (byte_of_ascii c, Byte.x00))
                          (list_ascii_of_string s) ++ post).
Proof.
  split; intros s Hs.
  - rewrite extract_ascii_strings_run in Hs.
    apply run_loop_all_from_run in Hs as (Hl & pre & seg & post & Hu & Hr).
    apply reads_ascii_unit in Hr as [Hp ->]. eauto 6.
  - rewrite extract_utf16le_strings_run in Hs.
    apply run_loop_all_from_run in Hs as (Hl & pre & seg & post & Hu & Hr).
    apply reads_utf16_unit in Hr as [Hp ->]. eauto 6.
Qed.

Lemma recovered_strings_sound_witness :
  "AUTHKEY"%string ∈ extract_utf16le_strings wide_AUTHKEY 4
  /\ 4 <= Z.of_nat (String.length "AUTHKEY")
  /\ Forall printable_char (list_ascii_of_string "AUTHKEY")
  /\ exists pre post,
       byte_pairs wide_AUTHKEY
       = pre ++ map (fun c => (byte_of_ascii c, Byte.x00))
                    (list_ascii_of_string "AUTHKEY") ++ post.
Proof.
  assert ("AUTHKEY"%string ∈ extract_utf16le_strings wide_AUTHKEY 4) as Hin.
  { replace (extract_utf16le_strings wide_AUTHKEY 4) with ["AUTHKEY"%string]
      by reflexivity.
    left. }
  split; [exact Hin |].
  exact (proj2 (recovered_strings_sound wide_AUTHKEY 4) "AUTHKEY"%string Hin).
Defined.

(** ** Deduplication and classification *)

(** The loop keeps [seen] equal to the set of the elements of the result,
    appends exactly the new elements, and never repeats one. *)
Lemma uniq_loop_spec (seq : list string) :
  forall (seen : gset string) (res : list string),
    (forall x, x ∈ seen <-> x ∈ res) ->
    NoDup res ->
    (forall x, x ∈ (fold_left uniq_step seq (seen, res)).1
               <-> x ∈ (fold_left uniq_step seq (seen, res)).2)
    /\ (forall x, x ∈ (fold_left uniq_step seq (seen, res)).2
                  <-> x ∈ res \/ x ∈ seq)
    /\ NoDup (fold_left uniq_step seq (seen, res)).2.
Proof.
  induction seq as [| s seq IH]; intros seen res Hseen Hnd; simpl.
  - split; [done |]. split; [| done].
    intros x. split; [by left |].
    intros [? | Hx]; [done | by apply elem_of_nil in Hx].
  - replace (uniq_step (seen, res) s)
      with (if bool_decide (s ∈ seen) then (seen, res)
            else ({[ s ]} ∪ seen, res ++ [s])) by done.
    destruct (bool_decide_reflect (s ∈ seen)) as [Hin | Hnin].
    + destruct (IH seen res Hseen Hnd) as (H1 & H2 & H3).
      split; [done |]. split; [| done].
      intros x. rewrite H2, elem_of_cons. split; [tauto |].
      intros [? | [-> | ?]]; [tauto | left; by apply Hseen | tauto].
    + destruct (IH ({[ s ]} ∪ seen) (res ++ [s])) as (H1 & H2 & H3).
      * intros x. rewrite elem_of_union, elem_of_singleton, elem_of_app,
          list_elem_of_singleton, Hseen. tauto.
      * apply NoDup_app. split; [done |]. split; [| apply NoDup_singleton].
        intros x Hx ->%list_elem_of_singleton. by apply Hnin, Hseen.
      * split; [done |]. split; [| done].
        intros x. rewrite H2, elem_of_app, list_elem_of_singleton, elem_of_cons.
        tauto.
Qed.

Lemma elem_of_uniq (seq : list string) (x : string) : x ∈ uniq seq <-> x ∈ seq.
Proof.
  unfold uniq.
  destruct (uniq_loop_spec seq ∅ []) as (_ & H & _);
    [set_solver | constructor |].
  rewrite H. split; [| by right]. intros [Hx | ?]; [| done].
  by apply elem_of_nil in Hx.
Qed.

Lemma NoDup_uniq (seq : list string) : NoDup (uniq seq).
Proof.
  unfold uniq.
  by destruct (uniq_loop_spec seq ∅ []) as (_ & _ & H);
    [set_solver | constructor |].
Qed.

(** Deduplicating two permutations of a sequence gives two permutations of
    the same duplicate-free list of hits. *)
Lemma uniq_Permutation (l l' : list string) : l ≡ₚ l' -> uniq l ≡ₚ uniq l'.
Proof.
  intros Hp. apply NoDup_Permutation; [apply NoDup_uniq | apply NoDup_uniq |].
  intros x. by rewrite !elem_of_uniq, Hp.
Qed.

Lemma filter_Permutation {X} (f : X -> bool) (l l' : list X) :
  l ≡ₚ l' -> List.filter f l ≡ₚ List.filter f l'.
Proof.
  induction 1 as [| x l l' _ IH | x y l | l l' l'' _ IH1 _ IH2]; simpl.
  - done.
  - destruct (f x); [by constructor | done].
  - destruct (f x), (f y); try done. apply perm_swap.
  - by etrans.
Qed.

Lemma flat_map_Permutation {X Y} (f : X -> list Y) (l l' : list X) :
  l ≡ₚ l' -> flat_map f l ≡ₚ flat_map f l'.
Proof.
  induction 1 as [| x l l' _ IH | x y l | l l' l'' _ IH1 _ IH2]; simpl.
  - done.
  - by apply Permutation_app.
  - rewrite !app_assoc. apply Permutation_app; [| done]. apply Permutation_app_comm.
  - by etrans.
Qed.

Lemma uniq_uniq (seq : list string) : uniq (uniq seq) = uniq seq.
Proof.
  assert (forall (l : list string) (seen : gset string) (res : list string),
            NoDup l -> (forall x, x ∈ l -> x ∉ seen) ->
            (fold_left uniq_step l (seen, res)).2 = res ++ l) as Hfresh.
  { induction l as [| s l IH]; intros seen res Hnd Hf; simpl.
    - by rewrite app_nil_r.
    - apply NoDup_cons in Hnd as [Hs Hnd].
      unfold uniq_step at 2. simpl.
      rewrite bool_decide_eq_false_2 by (apply Hf; left).
      rewrite IH, <- app_assoc; [done | done |].
      intros x Hx. rewrite elem_of_union, elem_of_singleton.
      intros [-> | ?]; [done |]. apply (Hf x); [by right | done]. }
  unfold uniq at 1. rewrite Hfresh; [done | apply NoDup_uniq | set_solver].
Qed.

Lemma uniq_preserve_uniq (seq : list string) : uniq_preserve seq = uniq seq.
Proof. done. Qed.

Lemma classify_same_hits (l l' : list string) :
  l ≡ₚ l' -> same_hits (classify l) (classify l').
Proof.
  intros Hp. unfold same_hits, classify, find_keys. simpl.
  unfold find_json_like, find_mqtt_topics, find_tuya_dp, find_keys_hex,
    find_keys_b64, find_tuya_sig.
  repeat split; apply uniq_Permutation;
    (by apply filter_Permutation) || (by apply flat_map_Permutation).
Qed.

Lemma analyze_strings_same_hits (l l' : list string) :
  l ≡ₚ l' -> same_recon_hits (analyze_strings l) (analyze_strings l').
Proof.
  intros Hp. unfold same_recon_hits, analyze_strings. simpl.
  repeat split; rewrite !uniq_preserve_uniq; apply uniq_Permutation;
    by apply flat_map_Permutation.
Qed.

Lemma classify_dedup (l : list string) : dedup (classify l).
Proof. unfold dedup, classify. simpl. repeat split; apply NoDup_uniq. Qed.

(** C8: classifying a sequence of strings again gives the same category
    mapping (every call starts from a fresh [seen] set), a mapping whose
    categories hold no duplicates; for every permutation of the sequence,
    every category of both classifiers holds the same set of hits, as a
    list that is a permutation of the original one; the order of the hits
    can differ. *)
Theorem classify_permutation :
  (forall l : list string, classify l = classify l /\ dedup (classify l))
  /\ (forall l l' : list string,
        l ≡ₚ l' ->
        same_hits (classify l) (classify l')
        /\ same_recon_hits (analyze_strings l) (analyze_strings l')
        /\ (forall x, x ∈ json_like (classify l) <-> x ∈ json_like (classify l'))
        /\ (forall x, x ∈ aes_key_hex_candidates (classify l)
                      <-> x ∈ aes_key_hex_candidates (classify l')))
  /\ (exists l l' : list string,
        l ≡ₚ l' /\ json_like (classify l) <> json_like (classify l')).
Proof.
  split; [| split].
  - intros l. split; [done | apply classify_dedup].
  - intros l l' Hp.
    pose proof (classify_same_hits l l' Hp) as Hs.
    split; [exact Hs |]. split; [by apply analyze_strings_same_hits |].
    destruct Hs as (H1 & _ & _ & H4 & _).
    split; intros x; [by rewrite H1 | by rewrite H4].
  - exists ["{a:1}"; "{b:2}"]%string, ["{b:2}"; "{a:1}"]%string.
    split; [apply perm_swap |]. vm_compute. discriminate.
Qed.

Lemma classify_permutation_witness :
  same_hits (classify ["{a:1}"; "x/y/z"; "{a:1}"]%string)
            (classify ["x/y/z"; "{a:1}"; "{a:1}"]%string).
Proof.
  apply (proj1 (proj2 classify_permutation)).
  apply perm_swap.
Defined.

(** ** Reasoning about the matcher *)

Section MatcherFacts.
Context {A : Type}.
Variable code : A -> N.
Variable word : N -> bool.
Variable inp : list A.

Lemma m_cls (P : N -> bool) (s : mstate) :
  m code word inp (Cls P) s = if class_at code inp P s.1 then [(S s.1, s.2)] else [].
Proof. done. Qed.

Lemma rep_S (f : mstate -> list mstate) (hi lo : nat) (s : mstate) :
  rep f (S hi) lo s
  = flat_map (rep f hi (Nat.pred lo)) (f s)
    ++ match lo with O => [s] | S _ => [] end.
Proof. done. Qed.


(** Every end state of a counted repetition of a class lies between [lo] and
    [hi] positions further and records no group. *)
Lemma rep_cls_elem (P : N -> bool) (hi : nat) :
  forall (lo q : nat) (c : caps) (s' : mstate),
    s' ∈ rep (m code word inp (Cls P)) hi lo (q, c) ->
    s'.2 = c /\ (q + lo <= s'.1 <= q + hi)%nat.
Proof.
  induction hi as [| hi IH]; intros lo q c s'.
  - simpl. destruct lo; [| by intros ?%elem_of_nil].
    intros ->%list_elem_of_singleton. simpl. split; [done | lia].
  - rewrite rep_S, elem_of_app. intros [Hin | Hin].
    + rewrite m_cls in Hin. cbn [fst snd] in Hin.
      destruct (class_at code inp P q); cbn [flat_map] in Hin;
        [| by apply elem_of_nil in Hin].
      rewrite app_nil_r in Hin. apply IH in Hin as [? ?]. simpl in *.
      split; [done | lia].
    + destruct lo; [| by apply elem_of_nil in Hin].
      apply list_elem_of_singleton in Hin as ->. simpl. split; [done | lia].
Qed.



End MatcherFacts.

Lemma m_seq {A} (code : A -> N) word inp (r1 r2 : regex) (s : mstate) :
  m code word inp (Seq r1 r2) s
  = flat_map (m code word inp r2) (m code word inp r1 s).
Proof. done. Qed.

Lemma m_grp {A} (code : A -> N) word inp (g : nat) (r : regex) (s : mstate) :
  m code word inp (Grp g r) s
  = map (fun s' : mstate => (s'.1, (g, (s.1, s'.1)) :: s'.2))
        (m code word inp r s).
Proof. done. Qed.

Lemma m_rep_bounded {A} (code : A -> N) word inp (lo hi : nat) (r : regex)
    (s : mstate) :
  m code word inp (Rep lo (Some hi) r) s = rep (m code word inp r) hi lo s.
Proof. done. Qed.

(** ** Over-long keys in front of the first [=] *)

Lemma chr_is_eq_byte (b : byte) :
  chr_is "=" (Byte.to_N b) = true <-> b = eq_byte.
Proof.
  unfold chr_is. rewrite N.eqb_eq. split.
  - intros H. apply (f_equal Byte.of_N) in H.
    rewrite Byte.of_to_N in H. vm_compute in H. unfold eq_byte. congruence.
  - by intros ->.
Qed.

Section LongKey.
Variables pre run rest : list byte.
Variable v : byte.
Hypothesis pre_no_eq : Forall (fun b => b <> eq_byte) pre.
Hypothesis run_word : Forall (fun b => word_cls (Byte.to_N b) = true) run.
Hypothesis run_long : (32 < length run)%nat.
Hypothesis v_value : value_cls (Byte.to_N v) = true.







End LongKey.

(** Word characters are ASCII, so decoding keeps all of them. *)
Lemma decode_ascii_ignore_word (bs : list byte) :
  Forall (fun b => word_cls (Byte.to_N b) = true) bs ->
  decode_ascii_ignore bs = join (map chr bs).
Proof.
  intros Hw. unfold decode_ascii_ignore. do 2 f_equal.
  induction Hw as [| b bs Hb _ IH]; simpl; [done |].
  rewrite IH.
  destruct (N.ltb_spec (Byte.to_N b) 128) as [| Hge]; [done |].
  exfalso. revert Hb Hge. clear. destruct b; vm_compute; congruence.
Qed.




(** ** Keywords *)







(** ** The [localKey] round trip *)

(** C3: on the buffer [b"localKey=ABCDEF1234567890ABCDEF1234567890"] the
    ASCII key/value extractor produces the pair with key [localKey] and the
    32-character value (and the verdict of the buffer carries it), and the
    hex key candidates found in the strings recovered from the buffer
    contain that value. *)
Theorem localKey_round_trip :
  ascii_hits localKey_buffer
  = [("localKey", "ABCDEF1234567890ABCDEF1234567890")%string]
  /\ all_strings localKey_buffer
     = ["localKey=ABCDEF1234567890ABCDEF1234567890"%string]
  /\ (find_keys (all_strings localKey_buffer)).1
     = ["ABCDEF1234567890ABCDEF1234567890"%string]
  /\ aes_key_hex_candidates (classify (all_strings localKey_buffer))
     = ["ABCDEF1234567890ABCDEF1234567890"%string]
  /\ exists v, scan_blob localKey_buffer = Some v
       /\ v !! "ascii_kv"
          = Some (VPairs [("localKey", "ABCDEF1234567890ABCDEF1234567890")%string]).
Proof.
  repeat split; try (vm_compute; reflexivity).
  assert (32 <= Z.of_nat (length localKey_buffer) <= 1048576) as Hr
    by (simpl; lia).
  rewrite scan_blob_in_range by done.
  destruct (verdict localKey_buffer) as [v |] eqn:Hv.
  - exists v. split; [done |].
    apply verdict_fields in Hv as (_ & _ & -> & _).
    vm_compute. reflexivity.
  - apply verdict_none, signals_empty in Hv as (_ & _ & _ & He).
    vm_compute in He. by destruct He.
Qed.

(** ** Base64 key candidates *)

(** Every hit of the scan is the first match of the pattern at its start. *)
Lemma scan_hit_is_match {A} (code : A -> N) word inp (r : regex) (n : nat) :
  forall (p resume : nat) (h : hit),
    h ∈ scan code word inp r n p resume ->
    exists tl, m code word inp r (h_start h, []) = (h_end h, h_caps h) :: tl.
Proof.
  induction n as [| n IH]; intros p resume h; cbn [scan].
  - by intros ?%elem_of_nil.
  - destruct (p <? resume)%nat; [by apply IH |].
    destruct (m code word inp r (p, [])) as [| [e c] tl] eqn:Hm; [by apply IH |].
    intros [-> | Hin]%elem_of_cons; [| by apply IH in Hin].
    by exists tl.
Qed.

(** The general shape of the slip behind C7: a base64 candidate always ends
    at a word boundary, so when the padding is reported as part of it (the
    candidate ends in [=]) a word character follows the candidate in the
    string; padding at the end of the string or in front of a separator is
    never reported. *)
Lemma base64_hit_ends_at_boundary (s : string) (h : hit) :
  h ∈ finditer N_of_ascii uni_word (list_ascii_of_string s) BASE64_KEY_RE ->
  at_boundary N_of_ascii uni_word (list_ascii_of_string s) (h_end h) = true.
Proof.
  intros Hh. apply scan_hit_is_match in Hh as [tl Hm].
  assert ((h_end h, h_caps h)
            ∈ m N_of_ascii uni_word (list_ascii_of_string s) BASE64_KEY_RE
                (h_start h, [])) as Hin.
  { unfold mstate, caps in *. rewrite Hm. left. }
  clear Hm. unfold BASE64_KEY_RE, seqs in Hin.
  rewrite !m_seq in Hin.
  apply list_elem_of_In, in_flat_map in Hin as (s1 & _ & Hin).
  apply in_flat_map in Hin as (s2 & _ & Hin).
  apply in_flat_map in Hin as (s3 & _ & Hin).
  cbn [m] in Hin.
  destruct (at_boundary _ _ _ s3.1) eqn:Hb; [| by destruct Hin].
  destruct Hin as [-> | []]. done.
Qed.

(** C7, at the token of 22 base64 characters followed by [==]: the
    candidate that is reported is the token without its padding.  After a
    trailing [=] the final [\b] of the pattern fails unless a word character
    follows, so the matcher gives the padding back. *)
Theorem base64_padding_not_reported :
  all_strings (bytes_lit "ABCDEFGHIJKLMNOPQRSTUV==")
  = ["ABCDEFGHIJKLMNOPQRSTUV=="%string]
  /\ str_findall0 BASE64_KEY_RE "ABCDEFGHIJKLMNOPQRSTUV=="
     = ["ABCDEFGHIJKLMNOPQRSTUV"%string]
  /\ (find_keys ["ABCDEFGHIJKLMNOPQRSTUV=="%string]).2
     = ["ABCDEFGHIJKLMNOPQRSTUV"%string]
  /\ str_findall0 BASE64_KEY_RE "ABCDEFGHIJKLMNOPQRSTUV==x"
     = ["ABCDEFGHIJKLMNOPQRSTUV=="%string].
Proof. repeat split; vm_compute; reflexivity. Qed.

(** ** More on the byte-run scanners *)

Section RunLoopMore.
Context {X : Type}.
Variable unit_char : X -> option ascii.
Variable min_len : Z.

Lemma run_step_some (st : scan_state) (x : X) (c : ascii) :
  unit_char x = Some c ->
  run_step unit_char min_len st x = (st.1, st.2 ++ [c]).
Proof. unfold run_step. by intros ->. Qed.

Lemma run_step_none (st : scan_state) (x : X) :
  unit_char x = None ->
  run_step unit_char min_len st x = (flush min_len st, []).
Proof. unfold run_step. by intros ->. Qed.

(** Completed strings are only ever appended to. *)
Lemma run_loop_out_prefix (us : list X) :
  forall (out o : list string) (cur : list ascii),
    fold_left (run_step unit_char min_len) us (out ++ o, cur)
    = (out ++ (fold_left (run_step unit_char min_len) us (o, cur)).1,
       (fold_left (run_step unit_char min_len) us (o, cur)).2).
Proof.
  induction us as [| x us IH]; intros out o cur; [done |].
  cbn [fold_left].
  destruct (unit_char x) as [c |] eqn:Hx.
  - rewrite !(run_step_some _ x c Hx). cbn [fst snd]. apply IH.
  - rewrite !(run_step_none _ x Hx). unfold flush. cbn [fst snd].
    destruct (min_len <=? Z.of_nat (length cur)).
    + rewrite <- app_assoc. apply IH.
    + apply IH.
Qed.

Lemma flush_out_prefix (out o : list string) (cur : list ascii) :
  flush min_len (out ++ o, cur) = out ++ flush min_len (o, cur).
Proof.
  unfold flush. cbn [fst snd].
  destruct (min_len <=? Z.of_nat (length cur)); [by rewrite app_assoc | done].
Qed.

(** A unit that ends the run splits the scan in two. *)
Lemma run_loop_split (u1 u2 : list X) (x : X) :
  unit_char x = None ->
  flush min_len (fold_left (run_step unit_char min_len) (u1 ++ x :: u2) ([], []))
  = flush min_len (fold_left (run_step unit_char min_len) u1 ([], []))
    ++ flush min_len (fold_left (run_step unit_char min_len) u2 ([], [])).
Proof.
  intros Hx. rewrite fold_left_app. cbn [fold_left].
  destruct (fold_left (run_step unit_char min_len) u1 ([], [])) as [out cur].
  rewrite (run_step_none _ x Hx).
  rewrite <- (app_nil_r (flush min_len (out, cur))) at 1.
  rewrite run_loop_out_prefix.
  destruct (fold_left (run_step unit_char min_len) u2 ([], [])) as [out2 cur2].
  cbn [fst snd]. apply flush_out_prefix.
Qed.

(** A sequence of units that all contribute a character is one run. *)
Lemma run_loop_one_run (us : list X) (cs : list ascii) :
  forall cur : list ascii,
    reads unit_char cs us ->
    fold_left (run_step unit_char min_len) us ([], cur) = ([], cur ++ cs).
Proof.
  intros cur Hr. revert cur.
  induction Hr as [| c x cs us Hx _ IH]; intros cur.
  - by rewrite app_nil_r.
  - cbn [fold_left]. rewrite (run_step_some _ x c Hx). cbn [fst snd].
    rewrite IH. by rewrite <- app_assoc.
Qed.

(** Units that all end the run leave nothing to report, as long as the
    empty string is too short. *)
Lemma run_loop_no_run (us : list X) :
  1 <= min_len ->
  Forall (fun x => unit_char x = None) us ->
  fold_left (run_step unit_char min_len) us ([], []) = ([], []).
Proof.
  intros Hm. induction 1 as [| x us Hx _ IH]; [done |].
  cbn [fold_left]. rewrite (run_step_none _ x Hx).
  unfold flush. cbn [fst snd length].
  destruct (Z.leb_spec min_len (Z.of_nat 0)); [lia | exact IH].
Qed.
End RunLoopMore.

Lemma byte_pairs_app_even (d1 d2 : list byte) :
  Nat.Even (length d1) -> byte_pairs (d1 ++ d2) = byte_pairs d1 ++ byte_pairs d2.
Proof.
  intros [k Hk]. revert d1 Hk.
  induction k as [| k IH]; intros d1 Hk.
  - destruct d1; [done | simpl in Hk; lia].
  - destruct d1 as [| lo [| hi d1]]; try (simpl in Hk; lia).
    cbn [app byte_pairs]. rewrite IH; [done | simpl in Hk; lia].
Qed.

Lemma byte_pairs_widen (data : list byte) :
  byte_pairs (widen data) = map (fun b => (b, Byte.x00)) data.
Proof.
  induction data as [| b data IH]; [done |].
  unfold widen in *. cbn [flat_map app byte_pairs map]. by rewrite IH.
Qed.

Lemma length_byte_pairs (data : list byte) :
  (2 * length (byte_pairs data) <= length data)%nat.
Proof.
  assert (forall n (d : list byte), (length d <= n)%nat ->
            (2 * length (byte_pairs d) <= length d)%nat) as H.
  { induction n as [| n IH]; intros d Hd.
    - destruct d; [simpl; lia | simpl in Hd; lia].
    - destruct d as [| lo [| hi d]]; [simpl; lia | simpl; lia |].
      cbn [byte_pairs length] in *.
      specialize (IH d). destruct n; [lia |].
      assert (length d <= S n)%nat by lia.
      pose proof (IH ltac:(lia)). lia. }
  by apply (H (length data)).
Qed.

Lemma printable_nonzero (b : byte) : printable b = true -> b <> Byte.x00.
Proof. intros Hp ->. vm_compute in Hp. discriminate. Qed.

Lemma reads_ascii_printable (data : list byte) :
  Forall (fun b => printable b = true) data ->
  reads ascii_unit (map chr data) data.
Proof.
  induction 1 as [| b data Hb _ IH]; [constructor |].
  constructor; [| done]. unfold ascii_unit. by rewrite Hb.
Qed.

Lemma reads_utf16_printable (data : list byte) :
  Forall (fun b => printable b = true) data ->
  reads utf16_unit (map chr data) (map (fun b => (b, Byte.x00)) data).
Proof.
  induction 1 as [| b data Hb _ IH]; [constructor |].
  constructor; [| done]. unfold utf16_unit. cbn [fst snd].
  by rewrite Hb, bool_decide_eq_true_2.
Qed.

(** Round trip: a buffer of printable bytes is recovered as one string by
    the single-byte scanner, and its two-byte encoding as the same string
    by the wide scanner, when it is at least [min_len] long; otherwise
    nothing is recovered. *)
Theorem scanners_recover_printable (data : list byte) (min_len : Z) :
  Forall (fun b => printable b = true) data ->
  extract_ascii_strings data min_len
  = (if min_len <=? Z.of_nat (length data) then [join (map chr data)] else [])
  /\ extract_utf16le_strings (widen data) min_len
     = (if min_len <=? Z.of_nat (length data) then [join (map chr data)] else []).
Proof.
  intros Hp. split.
  - rewrite extract_ascii_strings_run.
    rewrite (run_loop_one_run ascii_unit min_len data (map chr data) [])
      by by apply reads_ascii_printable.
    unfold flush. cbn [fst snd app]. by rewrite length_map.
  - rewrite extract_utf16le_strings_run, byte_pairs_widen.
    rewrite (run_loop_one_run utf16_unit min_len _ (map chr data) [])
      by by apply reads_utf16_printable.
    unfold flush. cbn [fst snd app]. by rewrite length_map.
Qed.

Lemma scanners_recover_printable_witness :
  extract_ascii_strings (bytes_lit "nvram") 4 = ["nvram"%string]
  /\ extract_utf16le_strings (widen (bytes_lit "nvram")) 4 = ["nvram"%string].
Proof.
  apply (scanners_recover_printable (bytes_lit "nvram") 4).
  repeat constructor.
Defined.

(** Splitting: a byte outside the printable range separates the strings
    recovered before it from those recovered after it; for the wide scanner
    the same holds for a byte pair at an even offset that is not a printable
    character followed by zero. *)
Theorem scanners_split (d1 d2 : list byte) (lo hi : byte) (min_len : Z) :
  (printable lo = false ->
   extract_ascii_strings (d1 ++ lo :: d2) min_len
   = extract_ascii_strings d1 min_len ++ extract_ascii_strings d2 min_len)
  /\ (Nat.Even (length d1) ->
      hi <> Byte.x00 \/ printable lo = false ->
      extract_utf16le_strings (d1 ++ lo :: hi :: d2) min_len
      = extract_utf16le_strings d1 min_len ++ extract_utf16le_strings d2 min_len).
Proof.
  split.
  - intros Hlo. rewrite !extract_ascii_strings_run.
    apply run_loop_split. unfold ascii_unit. by rewrite Hlo.
  - intros He Hx. rewrite !extract_utf16le_strings_run.
    rewrite byte_pairs_app_even by done. cbn [byte_pairs].
    apply run_loop_split. unfold utf16_unit. cbn [fst snd].
    destruct Hx as [Hhi | Hlo].
    + by rewrite bool_decide_eq_false_2.
    + by rewrite Hlo, andb_false_r.
Qed.

Lemma scanners_split_witness :
  extract_ascii_strings (bytes_lit "UUID" ++ x00 :: bytes_lit "AUTHKEY") 4
  = extract_ascii_strings (bytes_lit "UUID") 4
    ++ extract_ascii_strings (bytes_lit "AUTHKEY") 4.
Proof.
  apply (proj1 (scanners_split (bytes_lit "UUID") (bytes_lit "AUTHKEY") x00 x00 4)).
  reflexivity.
Defined.

Lemma length_chars (s : string) :
  length (list_ascii_of_string s) = String.length s.
Proof.
  rewrite <- (string_of_list_ascii_of_string s) at 2.
  symmetry. apply length_join.
Qed.

Lemma Forall_byte_pairs (P : byte -> Prop) (data : list byte) :
  Forall P data -> Forall (fun p => P p.1 /\ P p.2) (byte_pairs data).
Proof.
  assert (forall n (d : list byte), (length d <= n)%nat -> Forall P d ->
            Forall (fun p => P p.1 /\ P p.2) (byte_pairs d)) as H.
  { induction n as [| n IH]; intros d Hd Hall.
    - destruct d; [constructor | simpl in Hd; lia].
    - destruct d as [| lo [| hi d]]; [constructor | constructor |].
      cbn [byte_pairs].
      apply Forall_cons in Hall as [Hlo Hall].
      apply Forall_cons in Hall as [Hhi Hall].
      constructor; [done |]. apply IH; [simpl in Hd; lia | done]. }
  by apply (H (length data)).
Qed.

(** No list element means the empty list. *)
Lemma nil_of_no_elem {X} (l : list X) : (forall x, x ∈ l -> False) -> l = [].
Proof. destruct l as [| x l]; [done |]. intros H. destruct (H x). left. Qed.

(** Nothing to recover: with the empty string too short to be reported, a
    buffer without printable bytes (the empty buffer among them) yields no
    string under either scanner; and a buffer shorter than [min_len] yields
    none whatever it holds.  With [min_len] at most 0 the empty buffer does
    yield one string, the empty one. *)
Theorem scanners_nothing_to_recover (data : list byte) (min_len : Z) :
  (1 <= min_len ->
   Forall (fun b => printable b = false) data ->
   extract_ascii_strings data min_len = []
   /\ extract_utf16le_strings data min_len = [])
  /\ (Z.of_nat (length data) < min_len ->
      extract_ascii_strings data min_len = []
      /\ extract_utf16le_strings data min_len = [])
  /\ (min_len <= 0 ->
      extract_ascii_strings [] min_len = [""%string]
      /\ extract_utf16le_strings [] min_len = [""%string]).
Proof.
  split; [| split].
  - intros Hm Hnp. split.
    + rewrite extract_ascii_strings_run, run_loop_no_run; [| done |].
      * unfold flush. cbn [fst snd length].
        by destruct (Z.leb_spec min_len (Z.of_nat 0)); [lia |].
      * eapply Forall_impl; [exact Hnp |].
        intros b Hb. unfold ascii_unit. by rewrite Hb.
    + rewrite extract_utf16le_strings_run, run_loop_no_run; [| done |].
      * unfold flush. cbn [fst snd length].
        by destruct (Z.leb_spec min_len (Z.of_nat 0)); [lia |].
      * eapply Forall_impl; [apply Forall_byte_pairs, Hnp |].
        intros [lo hi] [Hlo _]. unfold utf16_unit. cbn [fst snd] in *.
        by rewrite Hlo, andb_false_r.
  - intros Hlen. split; apply nil_of_no_elem; intros s Hs.
    + rewrite extract_ascii_strings_run in Hs.
      apply run_loop_all_from_run in Hs as (Hl & pre & seg & post & Hu & Hr).
      apply Forall2_length in Hr. rewrite length_chars in Hr.
      apply (f_equal length) in Hu. rewrite !length_app in Hu. lia.
    + rewrite extract_utf16le_strings_run in Hs.
      apply run_loop_all_from_run in Hs as (Hl & pre & seg & post & Hu & Hr).
      apply Forall2_length in Hr. rewrite length_chars in Hr.
      apply (f_equal length) in Hu. rewrite !length_app in Hu.
      pose proof (length_byte_pairs data). lia.
  - intros Hm. unfold extract_ascii_strings, extract_utf16le_strings, flush.
    cbn [byte_pairs fold_left fst snd length].
    by destruct (Z.leb_spec min_len (Z.of_nat 0)); [| lia].
Qed.

Lemma scanners_nothing_to_recover_witness :
  (extract_ascii_strings [x00; x01; xff] 4 = []
   /\ extract_utf16le_strings [x00; x01; xff] 4 = [])
  /\ (extract_ascii_strings (bytes_lit "abc") 4 = []
      /\ extract_utf16le_strings (bytes_lit "abc") 4 = [])
  /\ extract_ascii_strings [] 0 = [""%string].
Proof.
  split; [| split].
  - apply (proj1 (scanners_nothing_to_recover [x00; x01; xff] 4)).
    + lia.
    + repeat constructor.
  - apply (proj1 (proj2 (scanners_nothing_to_recover (bytes_lit "abc") 4))).
    simpl. lia.
  - apply (proj2 (proj2 (scanners_nothing_to_recover [] 0))). lia.
Defined.

Lemma misaligned_units (data : list byte) :
  Forall (fun b => printable b = true) data ->
  forall b : byte,
    Forall (fun p => utf16_unit p = None) (byte_pairs (b :: widen data)).
Proof.
  induction 1 as [| d data Hd _ IH]; intros b; [constructor |].
  unfold widen in *. cbn [flat_map app byte_pairs].
  constructor; [| apply IH].
  unfold utf16_unit. cbn [fst snd].
  by rewrite bool_decide_eq_false_2 by by apply printable_nonzero.
Qed.

(** Alignment of the wide scanner: a final unpaired byte changes nothing,
    and a wide string that starts at an odd offset is not recovered (behind
    one leading byte, its characters fall on the high byte of every pair). *)
Theorem wide_scanner_alignment (data : list byte) (b : byte) (min_len : Z) :
  (Nat.Even (length data) ->
   extract_utf16le_strings (data ++ [b]) min_len
   = extract_utf16le_strings data min_len)
  /\ (1 <= min_len ->
      Forall (fun c => printable c = true) data ->
      extract_utf16le_strings (b :: widen data) min_len = []).
Proof.
  split.
  - intros He. unfold extract_utf16le_strings.
    rewrite byte_pairs_app_even by done. cbn [byte_pairs].
    by rewrite app_nil_r.
  - intros Hm Hp.
    rewrite extract_utf16le_strings_run, run_loop_no_run; [| done |].
    + unfold flush. cbn [fst snd length].
      by destruct (Z.leb_spec min_len (Z.of_nat 0)); [lia |].
    + by apply misaligned_units.
Qed.

Lemma wide_scanner_alignment_witness :
  extract_utf16le_strings (wide_AUTHKEY ++ [x41]) 4
  = extract_utf16le_strings wide_AUTHKEY 4
  /\ extract_utf16le_strings (x00 :: widen (bytes_lit "AUTHKEY")) 4 = [].
Proof.
  split.
  - apply (proj1 (wide_scanner_alignment wide_AUTHKEY x41 4)).
    exists 7%nat. reflexivity.
  - apply (proj2 (wide_scanner_alignment (bytes_lit "AUTHKEY") x00 4)).
    + lia.
    + repeat constructor.
Defined.

(** ** More on deduplication *)

Lemma filter_all_true {X} (P : X -> Prop) `{forall x, Decision (P x)}
    (l : list X) :
  Forall P l -> filter P l = l.
Proof.
  induction 1 as [| x l Hx _ IH]; [done |].
  by rewrite filter_cons_True, IH.
Qed.

Lemma uniq_fold_filter (l : list string) :
  forall (seen : gset string) (res : list string),
    (fold_left uniq_step l (seen, res)).2
    = res ++ filter (fun y => y ∉ seen) (uniq l).
Proof.
  induction l as [| x l IH]; intros seen res.
  - by rewrite app_nil_r.
  - assert (uniq (x :: l) = x :: filter (fun y => y ∉ ({[ x ]} : gset string)) (uniq l))
      as Hu.
    { unfold uniq at 1. cbn [fold_left]. unfold uniq_step at 2. cbn [fst snd].
      rewrite bool_decide_eq_false_2 by set_solver.
      rewrite IH. cbn [app]. f_equal. f_equal.
      apply list_filter_iff. set_solver. }
    rewrite Hu. cbn [fold_left]. unfold uniq_step at 2. cbn [fst snd].
    destruct (bool_decide_reflect (x ∈ seen)) as [Hin | Hnin].
    + rewrite IH. f_equal. rewrite filter_cons_False by (intros Hx; by apply Hx).
      rewrite list_filter_filter. apply list_filter_iff.
      intros y. rewrite elem_of_singleton. split; [| tauto].
      intros Hy. split; [done |]. by intros ->.
    + rewrite IH, <- app_assoc. f_equal. cbn [app].
      rewrite filter_cons_True by done. f_equal.
      rewrite list_filter_filter. apply list_filter_iff.
      intros y. rewrite elem_of_union, elem_of_singleton. tauto.
Qed.

(** [uniq] (and [uniq_preserve]) keeps exactly the first occurrence of every
    string, in the order of these first occurrences: the result starts with
    the first string and goes on with the deduplicated rest from which that
    string is removed.  So the result is a duplicate-free subsequence of the
    input with the same elements, and a duplicate-free input is returned
    unchanged. *)
Theorem uniq_first_occurrences (x : string) (l : list string) :
  uniq [] = []
  /\ uniq (x :: l) = x :: filter (fun y => y <> x) (uniq l)
  /\ uniq_preserve (x :: l) = x :: filter (fun y => y <> x) (uniq_preserve l)
  /\ uniq l `sublist_of` l
  /\ NoDup (uniq l)
  /\ (forall y, y ∈ uniq l <-> y ∈ l)
  /\ (NoDup l -> uniq l = l).
Proof.
  assert (forall (y : string) (k : list string),
            uniq (y :: k) = y :: filter (fun z => z <> y) (uniq k)) as Hc.
  { intros y k. unfold uniq at 1. cbn [fold_left]. unfold uniq_step at 2.
    cbn [fst snd]. rewrite bool_decide_eq_false_2 by set_solver.
    rewrite uniq_fold_filter. cbn [app]. f_equal.
    apply list_filter_iff. set_solver. }
  assert (forall k : list string, uniq k `sublist_of` k) as Hsub.
  { induction k as [| y k IH]; [done |].
    rewrite Hc. apply sublist_skip.
    etrans; [apply sublist_filter | exact IH]. }
  split; [done |]. split; [apply Hc |]. split; [apply Hc |].
  split; [apply Hsub |]. split; [apply NoDup_uniq |].
  split; [apply elem_of_uniq |].
  induction 1 as [| y k Hy _ IH]; [done |].
  rewrite Hc, IH. f_equal.
  apply filter_all_true. apply Forall_forall. by intros z Hz ->.
Qed.

Lemma uniq_first_occurrences_witness :
  uniq ["a"; "b"]%string = ["a"; "b"]%string.
Proof.
  apply (proj2 (proj2 (proj2 (proj2 (proj2 (proj2
           (uniq_first_occurrences "a" ["a"; "b"]%string))))))).
  repeat constructor; set_solver.
Defined.

(** ** Verdicts, the report of the detector and its filter *)

(** A verdict is only ever issued for a buffer of 32 to 1,048,576 bytes; it
    records that size, and at least one signal beside it. *)
Theorem verdict_size_invariant (data : list byte) (v : gmap string pyval) :
  scan_blob data = Some v ->
  32 <= Z.of_nat (length data) <= 1048576
  /\ v !! "size" = Some (VInt (Z.of_nat (length data)))
  /\ (exists k : string, k ∈ signal_keys /\ is_Some (v !! k))
  /\ (2 <= size v)%nat.
Proof.
  intros Hs.
  destruct (decide (32 <= Z.of_nat (length data) <= 1048576)) as [Hr | Hr];
    [| rewrite scan_blob_out_of_range in Hs by lia; discriminate].
  split; [done |].
  rewrite scan_blob_in_range in Hs by done.
  pose proof (verdict_fields data v Hs) as (Hsz & _).
  split; [done |].
  apply verdict_some in Hs as [-> Hne].
  split.
  - destruct (map_choose (signals data)) as (k & x & Hk).
    { intros He. apply Hne. by rewrite He, map_size_empty. }
    exists k. split.
    + destruct (decide (k ∈ signal_keys)) as [| Hnk]; [done |].
      by rewrite signals_other in Hk.
    + rewrite lookup_insert_ne; [by eexists |].
      intros <-. rewrite signals_other in Hk; [done |].
      unfold signal_keys. set_solver.
  - rewrite map_size_insert_None.
    + destruct (size (signals data)); [done | lia].
    + apply signals_other. unfold signal_keys. set_solver.
Qed.

Lemma verdict_size_invariant_witness :
  exists v, scan_blob (replicate 32 x00) = Some v /\ (2 <= size v)%nat.
Proof.
  destruct (scan_blob (replicate 32 x00)) as [v |] eqn:Hs.
  - exists v. split; [reflexivity |].
    apply (verdict_size_invariant (replicate 32 x00) v Hs).
  - exfalso. revert Hs. rewrite scan_blob_in_range by (simpl; lia).
    intros Hv.
    apply verdict_none, signals_empty in Hv as (_ & _ & _ & He).
    vm_compute in He. by destruct He.
Defined.

Lemma is_hit_spec (info : gmap string pyval) :
  is_hit info = true
  <-> is_Some (info !! "keyword_hits") \/ is_Some (info !! "ascii_kv")
      \/ is_Some (info !! "utf16_kv").
Proof.
  unfold is_hit. cbn [existsb].
  rewrite !orb_true_iff, !bool_decide_eq_true. intuition discriminate.
Qed.

Lemma group_field_is_Some {X} (lst : list X) (v : pyval) :
  is_Some (group_field lst v) <-> lst <> [].
Proof.
  destruct lst as [| x l]; simpl.
  - split; [by intros [? ?] | done].
  - split; [done | by eexists].
Qed.

(** The filter of [filter_nvram_hits.py] after the detector: the record of
    a buffer is selected if and only if a keyword or a key/value pair was
    found in it.  A verdict that rests on the low-entropy flag alone is
    written to the report and then passed over by the filter. *)
Theorem filter_after_scan_blob (data : list byte) :
  (forall v, scan_blob data = Some v ->
     (is_hit v = true
      <-> keyword_hits data <> [] \/ ascii_hits data <> []
          \/ utf16_hits data <> []))
  /\ (32 <= Z.of_nat (length data) <= 1048576 ->
      keyword_hits data = [] -> ascii_hits data = [] -> utf16_hits data = [] ->
      entropy data < 200 ->
      exists v, scan_blob data = Some v /\ is_hit v = false).
Proof.
  assert (forall v, scan_blob data = Some v ->
            (is_hit v = true
             <-> keyword_hits data <> [] \/ ascii_hits data <> []
                 \/ utf16_hits data <> [])) as Hiff.
  { intros v Hs.
    assert (verdict data = Some v) as Hv.
    { unfold scan_blob in Hs. by destruct (_ || _) in Hs. }
    apply verdict_fields in Hv as (_ & H1 & H2 & H3 & _).
    rewrite is_hit_spec, H1, H2, H3, !group_field_is_Some. done. }
  split; [exact Hiff |].
  intros Hr Hk Ha Hu He.
  destruct (low_entropy_verdict data Hr He) as (v & Hs & _).
  exists v. split; [done |].
  apply not_true_is_false. rewrite (Hiff v Hs), Hk, Ha, Hu. tauto.
Qed.

Lemma filter_after_scan_blob_witness :
  exists v, scan_blob (replicate 32 x00) = Some v /\ is_hit v = false.
Proof.
  apply (proj2 (filter_after_scan_blob (replicate 32 x00))).
  - simpl. lia.
  - reflexivity.
  - reflexivity.
  - reflexivity.
  - vm_compute. reflexivity.
Defined.

(** *** Reports keyed by relative path *)

Section Aggregate.
Context {V : Type}.
Variable pick : file -> option V.

Lemma keep_fold_origin (tree : list file) :
  forall (acc : gmap string V) (rel : string) (v : V),
    fold_left (keep_step pick) tree acc !! rel = Some v ->
    acc !! rel = Some v
    \/ exists f, f ∈ tree /\ f_rel f = rel /\ pick f = Some v.
Proof.
  induction tree as [| f tree IH]; intros acc rel v; cbn [fold_left].
  - by left.
  - intros [Hacc | (g & Hg & Hrel & Hp)]%IH.
    + unfold keep_step in Hacc. destruct (pick f) as [w |] eqn:Hf; [| by left].
      destruct (decide (f_rel f = rel)) as [<- | Hne].
      * rewrite lookup_insert_eq in Hacc. injection Hacc as ->.
        right. exists f. split; [left | done].
      * rewrite lookup_insert_ne in Hacc by done. by left.
    + right. exists g. split; [by right | done].
Qed.

Lemma keep_fold_other (tree : list file) :
  forall (acc : gmap string V) (rel : string),
    rel ∉ map f_rel tree ->
    fold_left (keep_step pick) tree acc !! rel = acc !! rel.
Proof.
  induction tree as [| f tree IH]; intros acc rel Hrel; cbn [fold_left]; [done |].
  cbn [map] in Hrel. apply not_elem_of_cons in Hrel as [Hne Hrel].
  rewrite IH by done. unfold keep_step.
  destruct (pick f); [by rewrite lookup_insert_ne | done].
Qed.

Lemma keep_fold_unique (tree : list file) :
  forall (acc : gmap string V) (f : file),
    NoDup (map f_rel tree) ->
    f ∈ tree ->
    fold_left (keep_step pick) tree acc !! f_rel f
    = match pick f with Some v => Some v | None => acc !! f_rel f end.
Proof.
  induction tree as [| g tree IH]; intros acc f Hnd Hf; cbn [fold_left].
  - by apply elem_of_nil in Hf.
  - cbn [map] in Hnd. apply NoDup_cons in Hnd as [Hg Hnd].
    apply elem_of_cons in Hf as [-> | Hf].
    + rewrite keep_fold_other by done. unfold keep_step.
      destruct (pick g); [by rewrite lookup_insert_eq | done].
    + rewrite IH by done. destruct (pick f); [done |].
      unfold keep_step. destruct (pick g); [| done].
      rewrite lookup_insert_ne; [done |].
      intros Heq. apply Hg. rewrite Heq.
      apply list_elem_of_In, in_map, list_elem_of_In, Hf.
Qed.
End Aggregate.

(** The report of the blob detector: every entry is the verdict of a
    readable file of the tree whose size is within the bounds, stored under
    the path of that file; and when the paths of the tree are pairwise
    distinct, as in a walk of a directory, the entry for a file is exactly
    what [scan_blob] returns for it, so files that cannot be read or that
    get no verdict have no entry. *)
Theorem blob_results_spec (tree : list file) :
  (forall (rel : string) (v : gmap string pyval),
     blob_results tree !! rel = Some v ->
     exists (f : file) (data : list byte),
       f ∈ tree /\ f_rel f = rel /\ f_contents f = Some data
       /\ scan_blob data = Some v
       /\ 32 <= Z.of_nat (length data) <= 1048576)
  /\ (NoDup (map f_rel tree) ->
      forall f : file,
        f ∈ tree ->
        blob_results tree !! f_rel f = scan_blob_file (f_contents f)).
Proof.
  change (blob_results tree)
    with (fold_left (keep_step (fun f => scan_blob_file (f_contents f))) tree ∅).
  split.
  - intros rel v [Hacc | (f & Hf & Hrel & Hp)]%keep_fold_origin.
    + by rewrite lookup_empty in Hacc.
    + destruct (f_contents f) as [data |] eqn:Hc; [| discriminate].
      exists f, data. repeat split; try done.
      * destruct (decide (32 <= Z.of_nat (length data))) as [| Hn]; [done |].
        cbn in Hp. rewrite scan_blob_out_of_range in Hp by lia. discriminate.
      * destruct (decide (Z.of_nat (length data) <= 1048576)) as [| Hn]; [done |].
        cbn in Hp. rewrite scan_blob_out_of_range in Hp by lia. discriminate.
  - intros Hnd f Hf. rewrite keep_fold_unique by done.
    destruct (scan_blob_file (f_contents f)); [done | apply lookup_empty].
Qed.

Lemma blob_results_spec_witness :
  blob_results [ {| f_rel := "mtd0"; f_contents := None |};
                 {| f_rel := "mtd1"; f_contents := Some localKey_buffer |} ]
    !! "mtd1"%string
  = scan_blob_file (Some localKey_buffer).
Proof.
  apply (proj2 (blob_results_spec
                  [ {| f_rel := "mtd0"; f_contents := None |};
                    {| f_rel := "mtd1"; f_contents := Some localKey_buffer |} ])
               ltac:(repeat constructor; set_solver)
               {| f_rel := "mtd1"; f_contents := Some localKey_buffer |}).
  set_solver.
Defined.

Lemma any_values_spec (info : recon_info) :
  StaticRecon.any_values info = true
  <-> exists l, l ∈ StaticRecon.values info /\ l <> [].
Proof.
  unfold StaticRecon.any_values. rewrite existsb_exists. split.
  - intros (l & Hl & Hne). exists l. split; [by apply list_elem_of_In |].
    apply negb_true_iff, bool_decide_eq_false in Hne. done.
  - intros (l & Hl & Hne). exists l. split; [by apply list_elem_of_In |].
    by apply negb_true_iff, bool_decide_eq_false.
Qed.

(** The report of the static recon: every entry belongs to a readable file
    of the tree that starts with the ELF magic, is the analysis of the
    strings of at least 4 printable bytes of that file, and has a category
    that is not empty; with pairwise distinct paths, a file that does not
    start with the magic (or cannot be read) has no entry. *)
Theorem scan_rootfs_spec (tree : list file) :
  (forall (rel : string) (info : recon_info),
     StaticRecon.scan_rootfs tree !! rel = Some info ->
     exists (f : file) (rest : list byte),
       f ∈ tree /\ f_rel f = rel
       /\ f_contents f = Some (elf_magic ++ rest)
       /\ info = analyze_strings (extract_ascii_strings (elf_magic ++ rest) 4)
       /\ exists l, l ∈ StaticRecon.values info /\ l <> [])
  /\ (NoDup (map f_rel tree) ->
      forall f : file,
        f ∈ tree ->
        StaticRecon.is_probably_elf (f_contents f) = false ->
        StaticRecon.scan_rootfs tree !! f_rel f = None).
Proof.
  set (pick := fun f : file =>
         if StaticRecon.is_probably_elf (f_contents f) then
           if StaticRecon.any_values
                (analyze_strings (StaticRecon.extract_ascii_strings (f_contents f) 4))
           then Some (analyze_strings
                        (StaticRecon.extract_ascii_strings (f_contents f) 4))
           else None
         else None).
  assert (StaticRecon.scan_rootfs tree = fold_left (keep_step pick) tree ∅) as ->.
  { unfold StaticRecon.scan_rootfs. apply fold_left_pointwise.
    intros acc f. unfold StaticRecon.scan_rootfs_step, keep_step, pick.
    destruct (StaticRecon.is_probably_elf _); [| done].
    by destruct (StaticRecon.any_values _). }
  split.
  - intros rel info [Hacc | (f & Hf & Hrel & Hp)]%keep_fold_origin.
    + by rewrite lookup_empty in Hacc.
    + unfold pick in Hp.
      destruct (StaticRecon.is_probably_elf (f_contents f)) eqn:Helf;
        [| discriminate].
      destruct (StaticRecon.any_values _) eqn:Hany; [| discriminate].
      injection Hp as <-.
      unfold StaticRecon.is_probably_elf in Helf.
      destruct (f_contents f) as [data |] eqn:Hc; [| discriminate].
      apply bool_decide_eq_true in Helf.
      assert (data = elf_magic ++ drop 4 data) as Hd.
      { unfold elf_magic. rewrite <- Helf. by rewrite take_drop. }
      exists f, (drop 4 data). rewrite <- Hd.
      repeat split; try done.
      by apply any_values_spec.
  - intros Hnd f Hf Helf. rewrite keep_fold_unique by done.
    unfold pick. rewrite Helf. apply lookup_empty.
Qed.

Lemma scan_rootfs_spec_witness :
  StaticRecon.scan_rootfs
    [ {| f_rel := "etc/passwd"; f_contents := Some (bytes_lit "root:x:0:0") |} ]
    !! "etc/passwd"%string
  = None.
Proof.
  apply (proj2 (scan_rootfs_spec
                  [ {| f_rel := "etc/passwd";
                       f_contents := Some (bytes_lit "root:x:0:0") |} ])
               ltac:(repeat constructor; set_solver)
               {| f_rel := "etc/passwd";
                  f_contents := Some (bytes_lit "root:x:0:0") |}).
  - set_solver.
  - reflexivity.
Defined.

(** ** More on the matcher *)

Section MatcherMore.
Context {A : Type}.
Variable code : A -> N.
Variable word : N -> bool.
Variable inp : list A.

Lemma class_at_lookup (P : N -> bool) (i : nat) :
  class_at code inp P i = true <-> exists x, inp !! i = Some x /\ P (code x) = true.
Proof.
  unfold class_at. destruct (inp !! i) as [x |].
  - split; [by exists x | by intros (? & [= <-] & ?)].
  - split; [done | by intros (? & ? & ?)].
Qed.

Lemma class_at_lt (P : N -> bool) (i : nat) :
  class_at code inp P i = true -> (i < length inp)%nat.
Proof.
  intros (x & Hx & _)%class_at_lookup. by apply lookup_lt_Some in Hx.
Qed.

(** The elements over which a counted repetition of a class has advanced
    all belong to the class. *)
Lemma rep_cls_run (P : N -> bool) (hi : nat) :
  forall (lo q : nat) (c : caps) (s' : mstate),
    s' ∈ rep (m code word inp (Cls P)) hi lo (q, c) ->
    forall i, (q <= i < s'.1)%nat -> class_at code inp P i = true.
Proof.
  induction hi as [| hi IH]; intros lo q c s'.
  - simpl. destruct lo; [| by intros ?%elem_of_nil].
    intros ->%list_elem_of_singleton. simpl. lia.
  - rewrite rep_S, elem_of_app. intros [Hin | Hin].
    + rewrite m_cls in Hin. cbn [fst snd] in Hin.
      destruct (class_at code inp P q) eqn:Hq; cbn [flat_map] in Hin;
        [| by apply elem_of_nil in Hin].
      rewrite app_nil_r in Hin. intros i Hi.
      destruct (decide (i = q)) as [-> | Hne]; [done |].
      apply (IH _ _ _ _ Hin). lia.
    + destruct lo; [| by apply elem_of_nil in Hin].
      apply list_elem_of_singleton in Hin as ->. simpl. lia.
Qed.

(** A slice over which a class holds has the expected length and consists
    of elements of the class. *)
Lemma slice_class (P : N -> bool) (b e : nat) :
  (b <= e)%nat ->
  (forall i, (b <= i < e)%nat -> class_at code inp P i = true) ->
  length (slice inp b e) = (e - b)%nat
  /\ Forall (fun x => P (code x) = true) (slice inp b e).
Proof.
  intros Hbe Hall. unfold slice.
  destruct (decide (b = e)) as [-> | Hne].
  { rewrite Nat.sub_diag, take_0. split; [done | constructor]. }
  assert (e <= length inp)%nat as He.
  { specialize (Hall (e - 1)%nat ltac:(lia)). apply class_at_lt in Hall. lia. }
  split.
  - rewrite length_take, length_drop. lia.
  - apply Forall_lookup. intros i x Hx.
    apply lookup_take_Some in Hx as [Hx Hi]. rewrite lookup_drop in Hx.
    specialize (Hall (b + i)%nat ltac:(lia)).
    apply class_at_lookup in Hall as (y & Hy & HP). congruence.
Qed.

Lemma m_seq_elem (r1 r2 : regex) (s s' : mstate) :
  s' ∈ m code word inp (Seq r1 r2) s
  <-> exists y, y ∈ m code word inp r1 s /\ s' ∈ m code word inp r2 y.
Proof.
  rewrite m_seq, list_elem_of_In, in_flat_map.
  by setoid_rewrite list_elem_of_In.
Qed.

Lemma m_alt_elem (r1 r2 : regex) (s s' : mstate) :
  s' ∈ m code word inp (Alt r1 r2) s
  <-> s' ∈ m code word inp r1 s \/ s' ∈ m code word inp r2 s.
Proof. cbn [m]. apply elem_of_app. Qed.

Lemma m_bnd_elem (s s' : mstate) :
  s' ∈ m code word inp Bnd s
  <-> s' = s /\ at_boundary code word inp s.1 = true.
Proof.
  cbn [m]. destruct (at_boundary code word inp s.1).
  - rewrite list_elem_of_singleton. tauto.
  - split; [by intros ?%elem_of_nil | by intros [_ ?]].
Qed.

Lemma m_cls_elem (P : N -> bool) (s s' : mstate) :
  s' ∈ m code word inp (Cls P) s
  <-> s' = (S s.1, s.2) /\ class_at code inp P s.1 = true.
Proof.
  rewrite m_cls. destruct (class_at code inp P s.1).
  - rewrite list_elem_of_singleton. tauto.
  - split; [by intros ?%elem_of_nil | by intros [_ ?]].
Qed.

Lemma m_grp_elem (g : nat) (r : regex) (s s' : mstate) :
  s' ∈ m code word inp (Grp g r) s
  <-> exists y, y ∈ m code word inp r s
                /\ s' = (y.1, (g, (s.1, y.1)) :: y.2).
Proof.
  rewrite m_grp, list_elem_of_In, in_map_iff.
  setoid_rewrite list_elem_of_In. split.
  - intros (y & <- & Hy). by exists y.
  - intros (y & Hy & ->). by exists y.
Qed.

(** The scan reports nothing exactly when the pattern matches at none of
    the positions it visits. *)
Lemma scan_nil (r : regex) (n : nat) :
  forall p resume : nat,
    (forall i, (p <= i < p + n)%nat -> m code word inp r (i, []) = []) ->
    scan code word inp r n p resume = [].
Proof.
  induction n as [| n IH]; intros p resume Hnil; cbn [scan]; [done |].
  rewrite Hnil by lia.
  destruct (p <? resume)%nat; apply IH; intros i Hi; apply Hnil; lia.
Qed.

Lemma scan_nil_inv (r : regex) (n : nat) :
  forall p : nat,
    scan code word inp r n p 0 = [] ->
    forall i, (p <= i < p + n)%nat -> m code word inp r (i, []) = [].
Proof.
  induction n as [| n IH]; intros p Hs i Hi; [lia |].
  cbn [scan Nat.ltb Nat.leb] in Hs.
  destruct (m code word inp r (p, [])) as [| [e c] tl] eqn:Hm; [| done].
  destruct (decide (i = p)) as [-> | Hne]; [done |].
  apply (IH (S p) Hs). lia.
Qed.

(** Every hit starts where the scan may start and its span was matched. *)
Lemma scan_hit_start (r : regex) (n : nat) :
  forall (p resume : nat) (h : hit),
    h ∈ scan code word inp r n p resume ->
    (p <= h_start h < p + n)%nat /\ (resume <= h_start h)%nat.
Proof.
  induction n as [| n IH]; intros p resume h; cbn [scan].
  - by intros ?%elem_of_nil.
  - destruct (Nat.ltb_spec p resume).
    + intros [? ?]%IH. lia.
    + destruct (m code word inp r (p, [])) as [| [e c] tl].
      * intros [? ?]%IH. lia.
      * intros [-> | [? ?]%IH]%elem_of_cons; simpl; lia.
Qed.
Lemma search_true_iff (r : regex) :
  search code word inp r = true
  <-> exists p, (p <= length inp)%nat /\ m code word inp r (p, []) <> [].
Proof.
  unfold search, finditer. split.
  - intros Hs.
    destruct (scan code word inp r (S (length inp)) 0 0) as [| h l] eqn:Hsc;
      [done |].
    assert (h ∈ scan code word inp r (S (length inp)) 0 0) as Hin
      by (rewrite Hsc; left).
    exists (h_start h). split.
    + apply scan_hit_start in Hin. lia.
    + apply scan_hit_is_match in Hin as [tl Hm].
      unfold mstate, caps in *. by rewrite Hm.
  - intros (p & Hp & Hm).
    destruct (scan code word inp r (S (length inp)) 0 0) eqn:Hsc; [| done].
    destruct Hm. apply (scan_nil_inv r _ 0 Hsc). lia.
Qed.

End MatcherMore.

(** ** Soundness of the key/value extractor *)

Lemma drop_slice {A} (inp : list A) (a b : nat) :
  (a <= b)%nat -> drop a inp = slice inp a b ++ drop b inp.
Proof.
  intros Hab. unfold slice.
  rewrite <- (take_drop (b - a) (drop a inp)) at 1.
  rewrite drop_drop. by replace (a + (b - a))%nat with b by lia.
Qed.

Lemma value_cls_spec (b : byte) :
  value_cls (Byte.to_N b) = true <-> b <> x00 /\ b <> x0d /\ b <> x0a.
Proof.
  split.
  - intros H. repeat split; intros ->; vm_compute in H; discriminate.
  - intros (H0 & H13 & H10). destruct b; try done.
Qed.

(** The shape of a match of [ASCII_KV_RE] that starts at [p]: the key runs
    to a position [q], the [=] is at [q], and the value runs from behind it
    to the end [e] of the match. *)
Lemma ascii_kv_match_shape (data : list byte) (p e : nat) (c : caps) :
  (e, c) ∈ m Byte.to_N word_cls data ASCII_KV_RE (p, []) ->
  exists q : nat,
    c = [(2%nat, (S q, e)); (1%nat, (p, q))]
    /\ (p + 2 <= q <= p + 32)%nat
    /\ (S q + 1 <= e <= S q + 128)%nat
    /\ (forall i, (p <= i < q)%nat -> class_at Byte.to_N data word_cls i = true)
    /\ data !! q = Some eq_byte
    /\ (forall i, (S q <= i < e)%nat -> class_at Byte.to_N data value_cls i = true).
Proof.
  unfold ASCII_KV_RE, seqs.
  intros (y1 & Hy1 & Hin)%m_seq_elem.
  apply m_grp_elem in Hy1 as (z & Hz & ->).
  rewrite m_rep_bounded in Hz.
  destruct z as [q cz].
  pose proof (rep_cls_elem _ _ _ _ _ _ _ _ _ Hz) as [Hcz Hq].
  pose proof (rep_cls_run _ _ _ _ _ _ _ _ _ Hz) as Hrun.
  cbn [fst snd] in *. subst cz.
  apply m_seq_elem in Hin as (y2 & Hy2 & Hin).
  apply m_cls_elem in Hy2 as [-> Heq]. cbn [fst snd] in *.
  apply m_grp_elem in Hin as (w & Hw & Hew).
  rewrite m_rep_bounded in Hw.
  destruct w as [e' cw].
  pose proof (rep_cls_elem _ _ _ _ _ _ _ _ _ Hw) as [Hcw He].
  pose proof (rep_cls_run _ _ _ _ _ _ _ _ _ Hw) as Hrun2.
  cbn [fst snd] in *. subst cw. injection Hew as -> ->.
  exists q. repeat split; try done; try lia.
  apply class_at_lookup in Heq as (b & Hb & Hc).
  apply chr_is_eq_byte in Hc. by subst b.
Qed.

(** Where a pair of the ASCII extractor comes from. *)
Lemma ascii_hits_origin (data : list byte) (k v : string) :
  (k, v) ∈ ascii_hits data ->
  exists p q e : nat,
    k = decode_ascii_ignore (slice data p q)
    /\ v = decode_ascii_ignore (slice data (S q) e)
    /\ (p + 2 <= q <= p + 32)%nat
    /\ (S q + 1 <= e <= S q + 128)%nat
    /\ (forall i, (p <= i < q)%nat -> class_at Byte.to_N data word_cls i = true)
    /\ data !! q = Some eq_byte
    /\ (forall i, (S q <= i < e)%nat -> class_at Byte.to_N data value_cls i = true).
Proof.
  unfold ascii_hits, bytes_findall2, findall2.
  rewrite map_map. intros (h & Hkv & Hh)%list_elem_of_In%in_map_iff.
  apply list_elem_of_In in Hh. unfold finditer in Hh.
  pose proof (scan_hit_is_match _ _ _ _ _ _ _ _ Hh) as [tl Hm].
  assert ((h_end h, h_caps h)
            ∈ m Byte.to_N word_cls data ASCII_KV_RE (h_start h, [])) as Hin.
  { unfold mstate, caps in *. rewrite Hm. left. }
  apply ascii_kv_match_shape in Hin
    as (q & Hc & Hq & He & Hkey & Heq & Hval).
  destruct h as [p e c]. cbn [h_start h_end h_caps] in *. subst c.
  exists p, q, e.
  cbn [fst snd] in Hkv. unfold group in Hkv. cbn [h_caps] in Hkv.
  change (list_find (fun c : nat * (nat * nat) => c.1 = 1%nat) _)
    with (Some (1%nat, (1%nat, (p, q)))) in Hkv.
  change (list_find (fun c : nat * (nat * nat) => c.1 = 2%nat) _)
    with (Some (0%nat, (2%nat, (S q, e)))) in Hkv.
  cbn beta iota in Hkv. injection Hkv as <- <-. done.
Qed.

(** Every pair of the ASCII key/value extractor is read off the buffer: a
    key of 2 to 32 word characters, the byte [=], and a value of 1 to 128
    bytes none of which is NUL, CR or LF, in this order and contiguous.  The
    key is reported as it stands; the value is reported without its bytes
    above 127, so it has at most 128 characters (and may be empty). *)
Theorem ascii_kv_sound (data : list byte) (k v : string) :
  (k, v) ∈ ascii_hits data ->
  exists kb vb pre post : list byte,
    data = pre ++ kb ++ eq_byte :: vb ++ post
    /\ k = join (map chr kb) /\ v = decode_ascii_ignore vb
    /\ (2 <= length kb <= 32)%nat
    /\ Forall (fun b => word_cls (Byte.to_N b) = true) kb
    /\ (1 <= length vb <= 128)%nat
    /\ Forall (fun b => b <> x00 /\ b <> x0d /\ b <> x0a) vb
    /\ (2 <= String.length k <= 32)%nat
    /\ (String.length v <= 128)%nat.
Proof.
  intros (p & q & e & -> & -> & Hq & He & Hkey & Heq & Hval)%ascii_hits_origin.
  destruct (slice_class Byte.to_N data word_cls p q ltac:(lia) Hkey)
    as [Hlk Hwk].
  destruct (slice_class Byte.to_N data value_cls (S q) e ltac:(lia) Hval)
    as [Hlv Hwv].
  exists (slice data p q), (slice data (S q) e), (take p data), (drop e data).
  assert (length (List.filter (fun b => (Byte.to_N b <? 128)%N) (slice data (S q) e))
          <= length (slice data (S q) e))%nat as Hfl.
  { generalize (slice data (S q) e). intros l.
    induction l as [| b l IH]; simpl; [lia |].
    destruct (Byte.to_N b <? 128)%N; simpl; lia. }
  repeat split.
  - rewrite <- (take_drop p data) at 1. f_equal.
    rewrite (drop_slice data p q) by lia. f_equal.
    rewrite (drop_S _ _ _ Heq). f_equal.
    apply drop_slice. lia.
  - by apply decode_ascii_ignore_word.
  - lia.
  - lia.
  - done.
  - lia.
  - lia.
  - eapply Forall_impl; [exact Hwv |]. intros b Hb. by apply value_cls_spec.
  - rewrite decode_ascii_ignore_word, length_join, length_map by done. lia.
  - rewrite decode_ascii_ignore_word, length_join, length_map by done. lia.
  - unfold decode_ascii_ignore. rewrite length_join, length_map. lia.
Qed.

Lemma ascii_kv_sound_witness :
  exists kb vb pre post : list byte,
    localKey_buffer = pre ++ kb ++ eq_byte :: vb ++ post
    /\ "localKey"%string = join (map chr kb)
    /\ "ABCDEF1234567890ABCDEF1234567890"%string = decode_ascii_ignore vb
    /\ (2 <= length kb <= 32)%nat.
Proof.
  destruct (ascii_kv_sound localKey_buffer "localKey"
              "ABCDEF1234567890ABCDEF1234567890")
    as (kb & vb & pre & post & H1 & H2 & H3 & H4 & _).
  - replace (ascii_hits localKey_buffer)
      with [("localKey", "ABCDEF1234567890ABCDEF1234567890")%string]
      by (vm_compute; reflexivity).
    left.
  - by exists kb, vb, pre, post.
Defined.

Section PairRep.
Context {A : Type}.
Variable code : A -> N.
Variable word : N -> bool.
Variable inp : list A.

(** Every end state of a counted repetition of two classes in sequence lies
    an even number of positions further, over pairs of the two classes. *)
Lemma rep_pair_elem (P Q : N -> bool) (hi : nat) :
  forall (lo q : nat) (c : caps) (s' : mstate),
    s' ∈ rep (m code word inp (Seq (Cls P) (Cls Q))) hi lo (q, c) ->
    s'.2 = c
    /\ exists j, (lo <= j <= hi)%nat /\ s'.1 = (q + 2 * j)%nat
         /\ forall i, (i < j)%nat ->
              class_at code inp P (q + 2 * i) = true
              /\ class_at code inp Q (q + 2 * i + 1) = true.
Proof.
  induction hi as [| hi IH]; intros lo q c s'.
  - simpl. destruct lo; [| by intros ?%elem_of_nil].
    intros ->%list_elem_of_singleton. split; [done |].
    exists 0%nat. simpl. repeat split; lia.
  - rewrite rep_S, elem_of_app. intros [Hin | Hin].
    + apply list_elem_of_In, in_flat_map in Hin as (y & Hy & Hin).
      apply list_elem_of_In, m_seq_elem in Hy as (y1 & Hy1 & Hy).
      apply m_cls_elem in Hy1 as [-> HP]. apply m_cls_elem in Hy as [-> HQ].
      cbn [fst snd] in *.
      apply list_elem_of_In, IH in Hin as (Hc & j & Hj & Hs & Hall).
      split; [done |]. exists (S j). split; [lia |]. split; [lia |].
      intros i Hi. destruct i as [| i].
      * rewrite Nat.mul_0_r, Nat.add_0_r. split; [done |].
        by replace (q + 1)%nat with (S q) by lia.
      * specialize (Hall i ltac:(lia)).
        replace (q + 2 * S i)%nat with (S (S q) + 2 * i)%nat by lia. done.
    + destruct lo; [| by apply elem_of_nil in Hin].
      apply list_elem_of_singleton in Hin as ->. split; [done |].
      exists 0%nat. simpl. repeat split; lia.
Qed.

Lemma slice_cons (b e : nat) (x : A) :
  (b < e)%nat -> inp !! b = Some x -> slice inp b e = x :: slice inp (S b) e.
Proof.
  intros Hbe Hx. unfold slice. rewrite (drop_S _ _ _ Hx).
  replace (e - b)%nat with (S (e - S b)) by lia. done.
Qed.
End PairRep.

Lemma zero_cls_spec (data : list byte) (i : nat) :
  class_at Byte.to_N data (N.eqb 0) i = true <-> data !! i = Some x00.
Proof.
  rewrite class_at_lookup. split.
  - intros (b & Hb & Hz). apply N.eqb_eq in Hz.
    rewrite Hb. f_equal. destruct b; try done.
  - intros Hb. by exists x00.
Qed.

(** A slice of pairs (byte of a class, zero byte) is the two-byte encoding
    of its low bytes. *)
Lemma slice_widen (data : list byte) (P : N -> bool) (j : nat) :
  forall b : nat,
    (forall i, (i < j)%nat ->
       class_at Byte.to_N data P (b + 2 * i) = true
       /\ class_at Byte.to_N data (N.eqb 0) (b + 2 * i + 1) = true) ->
    exists ks : list byte,
      slice data b (b + 2 * j) = widen ks /\ length ks = j
      /\ Forall (fun x => P (Byte.to_N x) = true) ks.
Proof.
  induction j as [| j IH]; intros b Hall.
  - exists []. unfold slice.
    replace (b + 2 * 0 - b)%nat with 0%nat by lia. by rewrite take_0.
  - destruct (Hall 0%nat ltac:(lia)) as [HP HZ].
    rewrite Nat.mul_0_r, Nat.add_0_r in HP, HZ.
    apply class_at_lookup in HP as (x & Hx & HPx).
    apply zero_cls_spec in HZ.
    destruct (IH (S (S b))) as (ks & Hks & Hlen & Hall').
    { intros i Hi. specialize (Hall (S i) ltac:(lia)).
      by replace (b + 2 * S i)%nat with (S (S b) + 2 * i)%nat in Hall by lia. }
    exists (x :: ks). split; [| split].
    + rewrite (slice_cons data b _ x) by (done || lia).
      rewrite (slice_cons data (S b) _ x00);
        [| lia | by replace (S b) with (b + 1)%nat by lia].
      replace (b + 2 * S j)%nat with (S (S b) + 2 * j)%nat by lia.
      by rewrite Hks.
    + simpl. lia.
    + by constructor.
Qed.

(** The shape of a match of [UTF16_KV_RE] that starts at [p]. *)
Lemma utf16_kv_match_shape (data : list byte) (p e : nat) (c : caps) :
  (e, c) ∈ m Byte.to_N word_cls data UTF16_KV_RE (p, []) ->
  exists jk jv : nat,
    c = [(2%nat, (S (p + 2 * jk), e)); (1%nat, (p, p + 2 * jk))%nat]
    /\ e = (S (p + 2 * jk) + 2 * jv)%nat
    /\ (2 <= jk <= 32)%nat /\ (2 <= jv <= 128)%nat
    /\ (forall i, (i < jk)%nat ->
          class_at Byte.to_N data word_cls (p + 2 * i) = true
          /\ class_at Byte.to_N data (N.eqb 0) (p + 2 * i + 1) = true)
    /\ data !! (p + 2 * jk)%nat = Some eq_byte
    /\ (forall i, (i < jv)%nat ->
          class_at Byte.to_N data (none_of [N.eqb 10]) (S (p + 2 * jk) + 2 * i) = true
          /\ class_at Byte.to_N data (N.eqb 0) (S (p + 2 * jk) + 2 * i + 1) = true).
Proof.
  unfold UTF16_KV_RE, seqs.
  intros (y1 & Hy1 & Hin)%m_seq_elem.
  apply m_grp_elem in Hy1 as (z & Hz & ->).
  rewrite m_rep_bounded in Hz. destruct z as [q cz].
  apply rep_pair_elem in Hz as (Hcz & jk & Hjk & Hq & Hkey).
  cbn [fst snd] in *. subst cz q.
  apply m_seq_elem in Hin as (y2 & Hy2 & Hin).
  apply m_cls_elem in Hy2 as [-> Heq]. cbn [fst snd] in *.
  apply m_grp_elem in Hin as (w & Hw & Hew).
  rewrite m_rep_bounded in Hw. destruct w as [e' cw].
  apply rep_pair_elem in Hw as (Hcw & jv & Hjv & He & Hval).
  cbn [fst snd] in *. subst cw e'. injection Hew as -> ->.
  exists jk, jv. repeat split; try done; try lia; try apply Hkey; try apply Hval; try done.
  apply class_at_lookup in Heq as (b & Hb & Hc).
  apply chr_is_eq_byte in Hc. by subst b.
Qed.

Lemma decode_utf16le_ignore_widen (ks : list byte) :
  decode_utf16le_ignore (widen ks) = join (map chr ks).
Proof.
  unfold decode_utf16le_ignore. rewrite byte_pairs_widen, map_map. done.
Qed.

Lemma length_widen (ks : list byte) : length (widen ks) = (2 * length ks)%nat.
Proof. induction ks as [| k ks IH]; [done |]. unfold widen in *. simpl. lia. Qed.

(** Where a pair of the wide extractor comes from. *)
Lemma utf16_hits_origin (data : list byte) (k v : string) :
  (k, v) ∈ utf16_hits data ->
  exists p jk jv : nat,
    k = decode_utf16le_ignore (slice data p (p + 2 * jk))
    /\ v = decode_utf16le_ignore
             (slice data (S (p + 2 * jk)) (S (p + 2 * jk) + 2 * jv))
    /\ (2 <= jk <= 32)%nat /\ (2 <= jv <= 128)%nat
    /\ (forall i, (i < jk)%nat ->
          class_at Byte.to_N data word_cls (p + 2 * i) = true
          /\ class_at Byte.to_N data (N.eqb 0) (p + 2 * i + 1) = true)
    /\ data !! (p + 2 * jk)%nat = Some eq_byte
    /\ (forall i, (i < jv)%nat ->
          class_at Byte.to_N data (none_of [N.eqb 10]) (S (p + 2 * jk) + 2 * i) = true
          /\ class_at Byte.to_N data (N.eqb 0) (S (p + 2 * jk) + 2 * i + 1) = true).
Proof.
  unfold utf16_hits, bytes_findall2, findall2.
  rewrite map_map. intros (h & Hkv & Hh)%list_elem_of_In%in_map_iff.
  apply list_elem_of_In in Hh. unfold finditer in Hh.
  pose proof (scan_hit_is_match _ _ _ _ _ _ _ _ Hh) as [tl Hm].
  assert ((h_end h, h_caps h)
            ∈ m Byte.to_N word_cls data UTF16_KV_RE (h_start h, [])) as Hin.
  { unfold mstate, caps in *. rewrite Hm. left. }
  apply utf16_kv_match_shape in Hin
    as (jk & jv & Hc & He & Hjk & Hjv & Hkey & Heq & Hval).
  destruct h as [p e c]. cbn [h_start h_end h_caps] in *. subst c e.
  exists p, jk, jv.
  cbn [fst snd] in Hkv. unfold group in Hkv. cbn [h_caps] in Hkv.
  change (list_find (fun c : nat * (nat * nat) => c.1 = 1%nat) _)
    with (Some (1%nat, (1%nat, (p, p + 2 * jk)%nat))) in Hkv.
  change (list_find (fun c : nat * (nat * nat) => c.1 = 2%nat) _)
    with (Some (0%nat, (2%nat, (S (p + 2 * jk), S (p + 2 * jk) + 2 * jv)%nat)))
    in Hkv.
  cbv beta iota in Hkv. injection Hkv as <- <-. done.
Qed.

(** Every pair of the wide key/value extractor is read off the buffer: the
    two-byte encoding of a key of 2 to 32 word characters, then the single
    byte [=], then the two-byte encoding of a value of 2 to 128 characters
    other than the line feed; key and value are reported in full. *)
Theorem utf16_kv_sound (data : list byte) (k v : string) :
  (k, v) ∈ utf16_hits data ->
  exists ks vs pre post : list byte,
    data = pre ++ widen ks ++ eq_byte :: widen vs ++ post
    /\ k = join (map chr ks) /\ v = join (map chr vs)
    /\ (2 <= length ks <= 32)%nat
    /\ Forall (fun b => word_cls (Byte.to_N b) = true) ks
    /\ (2 <= length vs <= 128)%nat
    /\ Forall (fun b => b <> x0a) vs.
Proof.
  intros (p & jk & jv & -> & -> & Hjk & Hjv & Hkey & Heq & Hval)%utf16_hits_origin.
  destruct (slice_widen data word_cls jk p Hkey) as (ks & Hks & Hlk & Hwk).
  destruct (slice_widen data (none_of [N.eqb 10]) jv (S (p + 2 * jk)) Hval)
    as (vs & Hvs & Hlv & Hwv).
  exists ks, vs, (take p data), (drop (S (p + 2 * jk) + 2 * jv) data).
  rewrite Hks, Hvs, !decode_utf16le_ignore_widen.
  repeat split; try done; try lia.
  - rewrite <- (take_drop p data) at 1. f_equal.
    rewrite (drop_slice data p (p + 2 * jk)) by lia. rewrite Hks. f_equal.
    rewrite (drop_S _ _ _ Heq). f_equal.
    rewrite (drop_slice data (S (p + 2 * jk)) (S (p + 2 * jk) + 2 * jv)) by lia.
    by rewrite Hvs.
  - eapply Forall_impl; [exact Hwv |]. intros b Hb ->. vm_compute in Hb.
    discriminate.
Qed.

Lemma utf16_kv_sound_witness :
  exists ks vs pre post : list byte,
    widen (bytes_lit "SN") ++ eq_byte :: widen (bytes_lit "42")
    = pre ++ widen ks ++ eq_byte :: widen vs ++ post
    /\ "SN"%string = join (map chr ks) /\ "42"%string = join (map chr vs).
Proof.
  destruct (utf16_kv_sound
              (widen (bytes_lit "SN") ++ eq_byte :: widen (bytes_lit "42"))
              "SN" "42")
    as (ks & vs & pre & post & H1 & H2 & H3 & _).
  - replace (utf16_hits _) with [("SN", "42")%string]
      by (vm_compute; reflexivity).
    left.
  - by exists ks, vs, pre, post.
Defined.

(** Without a byte [=] in the buffer there is no key/value pair, single-byte
    or wide. *)
Theorem kv_needs_eq (data : list byte) :
  eq_byte ∉ data -> ascii_hits data = [] /\ utf16_hits data = [].
Proof.
  intros Hno. split; apply nil_of_no_elem; intros [k v] Hkv; apply Hno.
  - apply ascii_hits_origin in Hkv as (p & q & e & _ & _ & _ & _ & _ & Heq & _).
    by apply list_elem_of_lookup_2 in Heq.
  - apply utf16_hits_origin in Hkv as (p & jk & jv & _ & _ & _ & _ & _ & Heq & _).
    by apply list_elem_of_lookup_2 in Heq.
Qed.

Lemma kv_needs_eq_witness :
  ascii_hits wide_AUTHKEY = [] /\ utf16_hits wide_AUTHKEY = [].
Proof.
  apply (kv_needs_eq wide_AUTHKEY).
  unfold wide_AUTHKEY, eq_byte. set_solver.
Defined.





(** ** Key candidates *)

Lemma m_rep_unbounded {A} (code : A -> N) word inp (lo : nat) (r : regex)
    (s : mstate) :
  m code word inp (Rep lo None r) s
  = rep (m code word inp r) (length inp - s.1) lo s.
Proof. done. Qed.

(** Where a hit of [findall] on a string comes from. *)
Lemma str_findall0_origin (r : regex) (s h : string) :
  h ∈ str_findall0 r s ->
  exists (p e : nat) (c : caps),
    (e, c) ∈ m N_of_ascii uni_word (list_ascii_of_string s) r (p, [])
    /\ h = string_of_list_ascii (slice (list_ascii_of_string s) p e).
Proof.
  unfold str_findall0, findall0. rewrite map_map.
  intros (ht & <- & Hh)%list_elem_of_In%in_map_iff.
  apply list_elem_of_In in Hh. unfold finditer in Hh.
  pose proof (scan_hit_is_match _ _ _ _ _ _ _ _ Hh) as [tl Hm].
  exists (h_start ht), (h_end ht), (h_caps ht). split; [| done].
  unfold mstate, caps in *. rewrite Hm. left.
Qed.

Lemma in_rng_spec (a b : ascii) (n : N) :
  in_rng a b n = true <-> (cp a <= n <= cp b)%N.
Proof. unfold in_rng. rewrite andb_true_iff, !N.leb_le. done. Qed.

Lemma hex_is_word (n : N) : hex_cls n = true -> uni_word n = true.
Proof.
  intros H. assert (word_cls n = true) as Hw.
  { unfold hex_cls, word_cls, any_of in *. cbn [existsb] in *.
    rewrite !orb_true_iff, !in_rng_spec in *.
    vm_compute cp in *. lia. }
  unfold uni_word. by rewrite Hw.
Qed.

(** The shape of a match of one alternative of [AES_KEY_HEX_RE]. *)
Lemma hex_alt_shape (inp : list ascii) (k p e : nat) (c : caps) :
  (0 < k)%nat ->
  (e, c) ∈ m N_of_ascii uni_word inp
             (seqs [Bnd; Rep k (Some k) (Cls hex_cls); Bnd]) (p, []) ->
  e = (p + k)%nat
  /\ (forall i, (p <= i < e)%nat -> class_at N_of_ascii inp hex_cls i = true)
  /\ (forall q, p = S q -> word_at N_of_ascii uni_word inp q = false)
  /\ word_at N_of_ascii uni_word inp e = false.
Proof.
  intros Hk. unfold seqs.
  intros (y1 & Hy1 & Hin)%m_seq_elem.
  apply m_bnd_elem in Hy1 as [-> Hb1]. cbn [fst] in Hb1.
  apply m_seq_elem in Hin as (y2 & Hy2 & Hin).
  rewrite m_rep_bounded in Hy2. destruct y2 as [q cq].
  pose proof (rep_cls_elem _ _ _ _ _ _ _ _ _ Hy2) as [_ Hq].
  pose proof (rep_cls_run _ _ _ _ _ _ _ _ _ Hy2) as Hrun.
  cbn [fst snd] in *.
  apply m_bnd_elem in Hin as [[= -> ->] Hb2]. cbn [fst] in Hb2.
  assert (q = (p + k)%nat) as -> by lia.
  assert (forall i, (p <= i < p + k)%nat ->
            word_at N_of_ascii uni_word inp i = true) as Hw.
  { intros i Hi. specialize (Hrun i Hi).
    apply class_at_lookup in Hrun as (x & Hx & Hh).
    unfold word_at. apply class_at_lookup. exists x. split; [done |].
    by apply hex_is_word. }
  repeat split; try done.
  - intros q ->. unfold at_boundary in Hb1.
    rewrite (Hw (S q)) in Hb1 by lia. by destruct (word_at _ _ _ q).
  - unfold at_boundary in Hb2.
    replace (p + k)%nat with (S (p + k - 1)) in Hb2 at 1 by lia.
    rewrite (Hw (p + k - 1)%nat) in Hb2 by lia.
    by destruct (word_at _ _ _ (p + k)).
Qed.

Lemma hex_match_shape (inp : list ascii) (p e : nat) (c : caps) :
  (e, c) ∈ m N_of_ascii uni_word inp AES_KEY_HEX_RE (p, []) ->
  (e = p + 32 \/ e = p + 48 \/ e = p + 64)%nat
  /\ (forall i, (p <= i < e)%nat -> class_at N_of_ascii inp hex_cls i = true)
  /\ (forall q, p = S q -> word_at N_of_ascii uni_word inp q = false)
  /\ word_at N_of_ascii uni_word inp e = false.
Proof.
  unfold AES_KEY_HEX_RE. cbn [alts].
  intros [H | [H | H]%m_alt_elem]%m_alt_elem;
    apply hex_alt_shape in H as (-> & ? & ? & ?); try lia; tauto.
Qed.

(** Every hex key candidate is a run of exactly 32, 48 or 64 hexadecimal
    digits of one of the input strings, and that run is a whole token: the
    character in front of it and the character behind it, when there is
    one, are not word characters. *)
Theorem hex_candidates_sound (strings : list string) (h : string) :
  h ∈ (find_keys strings).1 ->
  (String.length h = 32 \/ String.length h = 48 \/ String.length h = 64)%nat
  /\ Forall (fun c => hex_cls (N_of_ascii c) = true) (list_ascii_of_string h)
  /\ exists (s : string) (pre post : list ascii),
       s ∈ strings
       /\ list_ascii_of_string s = pre ++ list_ascii_of_string h ++ post
       /\ (forall c, last pre = Some c -> uni_word (N_of_ascii c) = false)
       /\ (forall c, head post = Some c -> uni_word (N_of_ascii c) = false).
Proof.
  cbn [find_keys fst]. unfold find_keys_hex.
  rewrite elem_of_uniq, list_elem_of_In, in_flat_map.
  intros (s & Hs & Hh). apply list_elem_of_In in Hs, Hh.
  apply str_findall0_origin in Hh as (p & e & c & Hm & ->).
  apply hex_match_shape in Hm as (He & Hrun & Hpre & Hpost).
  set (inp := list_ascii_of_string s) in *.
  destruct (slice_class N_of_ascii inp hex_cls p e ltac:(lia) Hrun) as [Hl Hf].
  rewrite <- length_chars, list_ascii_of_string_of_list_ascii.
  split; [lia |]. split; [done |].
  exists s, (take p inp), (drop e inp). fold inp.
  split; [done |]. split; [| split].
  - rewrite <- (take_drop p inp) at 1. f_equal. apply drop_slice. lia.
  - intros x Hx. destruct p as [| q].
    + by rewrite take_0 in Hx.
    + specialize (Hpre q eq_refl). unfold word_at, class_at in Hpre.
      assert (inp !! q = Some x) as Hq.
      { rewrite last_lookup in Hx. apply lookup_take_Some in Hx as [Hx Hlt].
        rewrite length_take in Hx, Hlt.
        assert (S q <= length inp)%nat.
        { specialize (Hrun (S q) ltac:(lia)). apply class_at_lt in Hrun. lia. }
        by replace (Nat.pred (S q `min` length inp)) with q in Hx by lia. }
      by rewrite Hq in Hpre.
  - intros x Hx. rewrite head_lookup, lookup_drop, Nat.add_0_r in Hx.
    unfold word_at, class_at in Hpost. by rewrite Hx in Hpost.
Qed.

Lemma hex_candidates_sound_witness :
  (String.length "ABCDEF1234567890ABCDEF1234567890" = 32
   \/ String.length "ABCDEF1234567890ABCDEF1234567890" = 48
   \/ String.length "ABCDEF1234567890ABCDEF1234567890" = 64)%nat.
Proof.
  apply (hex_candidates_sound
           ["localKey=ABCDEF1234567890ABCDEF1234567890"%string]
           "ABCDEF1234567890ABCDEF1234567890").
  replace (find_keys ["localKey=ABCDEF1234567890ABCDEF1234567890"%string]).1
    with ["ABCDEF1234567890ABCDEF1234567890"%string]
    by (vm_compute; reflexivity).
  left.
Defined.
